(** * hey-apm: the command-line entry point (main.go)

    A shallow embedding of [main.go]: the construction of the run
    configuration ([parseFlags]), the fan-out of load-generation workers over
    an errgroup ([runWorkers]) and the wiring of the interrupt signal
    ([Main]).

    Sequential code is embedded as functions.  Goroutines are embedded as an
    interleaving semantics: an executable [step] function driven by a
    schedule, one action per atomic move of one goroutine.  What the packages
    outside [main.go] do (flag, strconv, math/rand, errgroup, context, the
    worker and benchmark packages) is taken from their documented interface;
    the worker and benchmark facades are left unconstrained: they may return
    any result at any time. *)

From Stdlib Require Import PrimFloat Ascii.
From stdpp Require Import base gmap strings list numbers.

Local Open Scope Z_scope.

(** ** Machine integers and durations *)

(** Go's [int] (on 64-bit targets), [int64] and [time.Duration] are 64-bit
    two's complement integers. *)
Definition min_int64 : Z := - 2 ^ 63.
Definition max_int64 : Z := 2 ^ 63 - 1.

Definition in_int64 (z : Z) : bool := (min_int64 <=? z) && (z <=? max_int64).

(** Wrap-around of a mathematical integer into the [int64] range. *)
Definition wrap64 (z : Z) : Z := (z + 2 ^ 63) mod 2 ^ 64 - 2 ^ 63.

(** [time.Duration] constants, in nanoseconds. *)
Definition Nanosecond : Z := 1.
Definition Millisecond : Z := 1000000.
Definition Second : Z := 1000000000.

(** [a * b] on [time.Duration]. *)
Definition duration_mul (a b : Z) : Z := wrap64 (a * b).

(** Go errors are modelled by their message; [None] is the nil error. *)
Abbreviation error := string (only parsing).

(** ** strconv.Atoi *)

Module strconv.

Definition digit_of (c : ascii) : option Z :=
  let n := Z.of_N (N_of_ascii c) - 48 in
  if (0 <=? n) && (n <=? 9) then Some n else None.

Fixpoint digits (acc : Z) (s : string) : option Z :=
  match s with
  | EmptyString => Some acc
  | String c s' =>
      match digit_of c with
      | Some d => digits (acc * 10 + d) s'
      | None => None
      end
  end.

(** An optional sign, then at least one decimal digit and nothing else; the
    value has to fit [int].  [None] stands for the returned [*NumError]
    (syntax or range). *)
Definition Atoi (s : string) : option Z :=
  let '(neg, body) :=
    match s with
    | String "-"%char r => (true, r)
    | String "+"%char r => (false, r)
    | _ => (false, s)
    end in
  match body with
  | EmptyString => None
  | _ =>
      match digits 0 body with
      | Some n =>
          let v := if neg then - n else n in
          if in_int64 v then Some v else None
      | None => None
      end
  end.

End strconv.

(** ** math/rand: the process-wide generator *)

(** The generator is deterministic: [rand.Seed] puts it in a state that
    depends on the seed alone, and every draw advances the state.  The
    algorithm is not part of this program; it is a parameter.  [rng_intn] is
    [rand.Intn] on a positive argument. *)
Class Generator := {
  rng : Type;
  rng_seed : Z → rng;
  rng_intn : rng → Z → Z * rng;
  rng_intn_range : ∀ g n, 0 < n → 0 ≤ (rng_intn g n).1 < n
}.

(** A small linear congruential generator, used to run the model on concrete
    inputs. *)
Module Lcg.

Definition modulus : Z := 2 ^ 31.
Definition seed (s : Z) : Z := s mod modulus.
Definition next (g : Z) : Z := (g * 1103515245 + 12345) mod modulus.
Definition intn (g n : Z) : Z * Z := ((next g / 65536) mod n, next g).

#[export] Instance generator : Generator :=
  {| rng := Z; rng_seed := seed; rng_intn := intn;
     rng_intn_range := λ g n Hn, Z.mod_pos_bound (next g / 65536) n Hn |}.

End Lcg.

(** ** models.Input *)

(** The configuration record.  Its declaration is in the [models] package;
    the fields are the ones [parseFlags] assigns.  Fields that are not
    assigned keep Go's zero value. *)
Record Input := {
  IsBenchmark : bool;
  ApmServerUrl : string;
  ApmServerSecret : string;
  APIKey : string;
  ElasticsearchUrl : string;
  ElasticsearchAuth : string;
  ApmElasticsearchUrl : string;
  ApmElasticsearchAuth : string;
  ServiceName : string;
  RunTimeout : Z;
  FlushTimeout : Z;
  Instances : Z;
  DelayMillis : Z;
  RegressionDays : string;
  RegressionMargin : float;
  TransactionFrequency : Z;
  TransactionLimit : Z;
  SpanMaxLimit : Z;
  SpanMinLimit : Z;
  ErrorFrequency : Z;
  ErrorLimit : Z;
  ErrorFrameMaxLimit : Z;
  ErrorFrameMinLimit : Z
}.

(** ** Contexts, channels and the observable events of a run *)

(** The cancellation contexts the program creates: the one [Main] makes in
    benchmark mode and the one [errgroup.WithContext] makes in [runWorkers]. *)
Inductive ctx_ref := CtxBench | CtxGroup.

(** A channel reference (the stop channel is the only one passed around). *)
Abbreviation chan_ref := nat (only parsing).

(** The arguments of one call [worker.Run(ctx, input, id, stop)]. *)
Record call_args := {
  call_ctx : ctx_ref;
  call_input : Input;
  call_id : string;
  call_stop : chan_ref
}.

(** Who draws from the generator. *)
Inductive drawer :=
| Jitter (idx : nat)     (* [rand.Intn] in the closure of instance [idx] *)
| Facade (idx : nat).    (* a draw made inside [worker.Run] of instance [idx] *)

Inductive event :=
| ESeed (seed : Z)                       (* rand.Seed(seed) *)
| EDraw (who : drawer) (n r : Z)         (* rand.Intn(n) returned r *)
| ESleep (idx : nat) (d : Z)             (* instance idx prints its start line and
                                            enters time.Sleep(d) *)
| ECall (idx : nat) (a : call_args)      (* instance idx calls worker.Run *)
| ERet (idx : nat) (r : option error)    (* worker.Run of instance idx returns r *)
| EFail (idx : nat) (e : error).         (* instance idx hands a non-nil error to
                                            the group *)

(** The trace of a run is kept most recent event first. *)
Abbreviation trace := (list event) (only parsing).

(** ** The flag package *)

(** A flag set maps the name of each defined flag to its current value; the
    pointer that [flag.Int], [flag.String], ... return is the name, and
    dereferencing it reads the current value.  The command line is taken after
    the package has split it into flags and converted the values: a list of
    assignments, in the order given. *)
Module flag.

Inductive value :=
| VBool (b : bool)
| VInt (z : Z)
| VInt64 (z : Z)
| VDuration (z : Z)
| VFloat64 (f : float)
| VString (s : string).

Definition same_kind (a b : value) : bool :=
  match a, b with
  | VBool _, VBool _ | VInt _, VInt _ | VInt64 _, VInt64 _
  | VDuration _, VDuration _ | VFloat64 _, VFloat64 _ | VString _, VString _ => true
  | _, _ => false
  end.

Definition fits (v : value) : bool :=
  match v with
  | VInt z | VInt64 z | VDuration z => in_int64 z
  | _ => true
  end.

(** [flag.Bool(name, def, usage)] and its siblings: define the flag with
    its default and return the pointer. *)
Definition define (name : string) (def : value) (fs : gmap string value)
  : string * gmap string value :=
  (name, <[name := def]> fs).

(** [flag.Parse()]: each assignment must name a defined flag and carry a
    value of its type that fits it; the first one that does not makes the
    package print the usage and exit ([None]). *)
Fixpoint Parse (args : list (string * value)) (fs : gmap string value)
  : option (gmap string value) :=
  match args with
  | [] => Some fs
  | (name, v) :: rest =>
      match fs !! name with
      | Some old =>
          if same_kind old v && fits v then Parse rest (<[name := v]> fs) else None
      | None => None
      end
  end.

Definition bool_at (fs : gmap string value) (p : string) : bool :=
  match fs !! p with Some (VBool b) => b | _ => false end.
Definition int_at (fs : gmap string value) (p : string) : Z :=
  match fs !! p with Some (VInt z) => z | _ => 0 end.
Definition int64_at (fs : gmap string value) (p : string) : Z :=
  match fs !! p with Some (VInt64 z) => z | _ => 0 end.
Definition duration_at (fs : gmap string value) (p : string) : Z :=
  match fs !! p with Some (VDuration z) => z | _ => 0 end.
Definition float64_at (fs : gmap string value) (p : string) : float :=
  match fs !! p with Some (VFloat64 f) => f | _ => 0%float end.
Definition string_at (fs : gmap string value) (p : string) : string :=
  match fs !! p with Some (VString s) => s | _ => "" end.

End flag.

(** ** How a call ends *)

Inductive panic_value :=
| AtoiError (s : string)    (* the error of strconv.Atoi(s) *)
| IntnInvalid.              (* "invalid argument to Intn" *)

Inductive outcome (A : Type) :=
| Returned (a : A)
| Panicked (v : panic_value)
| Exited (code : Z).
Arguments Returned {A} a.
Arguments Panicked {A} v.
Arguments Exited {A} code.

Section Program.

Context `{G : Generator}.

(** The process-wide state the sequential code touches: the generator of
    math/rand, and the trace of the calls made to it so far. *)
Record proc := { p_rng : rng; p_trace : trace }.

(** Before [init] runs, math/rand's generator is in its default state
    (seeded with 1). *)
Definition boot : proc := {| p_rng := rng_seed 1; p_trace := [] |}.

Definition rand_Seed (seed : Z) (p : proc) : proc :=
  {| p_rng := rng_seed seed; p_trace := ESeed seed :: p_trace p |}.

(** [rand.Intn(n)] panics when [n <= 0] ([None]). *)
Definition rand_Intn (n : Z) (g : rng) : option (Z * rng) :=
  if n <=? 0 then None else Some (rng_intn g n).

(** [init]: closing the default tracer has no effect on what is modelled
    here; the generator is seeded with the constant 1000. *)
Definition init (p : proc) : proc := rand_Seed 1000 p.

(** [parseFlags].  [getenv] is the value of ELASTIC_APM_SERVICE_NAME (the
    empty string when it is unset), [now] is [time.Now().Unix()] and [args]
    is the command line. *)
Definition parseFlags (getenv : string) (now : Z) (args : list (string * flag.value))
    (p : proc) : outcome Input * proc :=
  let fs : gmap string flag.value := ∅ in
  (* run options *)
  let '(runTimeout, fs) := flag.define "run" (flag.VDuration (30 * Second)) fs in
  let '(flushTimeout, fs) := flag.define "flush" (flag.VDuration (10 * Second)) fs in
  let '(seed, fs) := flag.define "seed" (flag.VInt64 now) fs in
  let '(instances, fs) := flag.define "instances" (flag.VInt 1) fs in
  let '(delayMillis, fs) := flag.define "delay" (flag.VInt 1000) fs in
  let serviceName := getenv in
  let '(serviceName, fs) :=
    if String.eqb serviceName "" then
      let '(ptr, fs) := flag.define "service-name" (flag.VString "hey-service") fs in
      (flag.string_at fs ptr, fs)
    else (serviceName, fs) in
  (* apm-server options *)
  let '(apmServerSecret, fs) := flag.define "apm-secret" (flag.VString "") fs in
  let '(apmServerAPIKey, fs) := flag.define "api-key" (flag.VString "") fs in
  let '(apmServerUrl, fs) := flag.define "apm-url" (flag.VString "http://localhost:8200") fs in
  let '(elasticsearchUrl, fs) := flag.define "es-url" (flag.VString "http://localhost:9200") fs in
  let '(elasticsearchAuth, fs) := flag.define "es-auth" (flag.VString "") fs in
  let '(apmElasticsearchUrl, fs) :=
    flag.define "apm-es-url" (flag.VString "http://localhost:9200") fs in
  let '(apmElasticsearchAuth, fs) := flag.define "apm-es-auth" (flag.VString "") fs in
  let '(isBench, fs) := flag.define "bench" (flag.VBool false) fs in
  let '(regressionMargin, fs) := flag.define "rm" (flag.VFloat64 0x1.199999999999ap+0) fs in
  let '(regressionDays, fs) := flag.define "rd" (flag.VString "7") fs in
  (* payload options *)
  let '(errorLimit, fs) := flag.define "e" (flag.VInt max_int64) fs in
  let '(errorFrequency, fs) := flag.define "ef" (flag.VDuration (1 * Nanosecond)) fs in
  let '(errorFrameMaxLimit, fs) := flag.define "ex" (flag.VInt 10) fs in
  let '(errorFrameMinLimit, fs) := flag.define "em" (flag.VInt 0) fs in
  let '(spanMaxLimit, fs) := flag.define "sx" (flag.VInt 10) fs in
  let '(spanMinLimit, fs) := flag.define "sm" (flag.VInt 1) fs in
  let '(transactionLimit, fs) := flag.define "t" (flag.VInt max_int64) fs in
  let '(transactionFrequency, fs) := flag.define "tf" (flag.VDuration (1 * Nanosecond)) fs in
  match flag.Parse args fs with
  | None => (Exited 2, p)
  | Some fs =>
      let spanMaxLimit :=
        if flag.int_at fs spanMaxLimit <? flag.int_at fs spanMinLimit
        then spanMinLimit else spanMaxLimit in
      let p := rand_Seed (flag.int64_at fs seed) p in
      (* the literal [models.Input{...}] leaves the fields below
         [DelayMillis] at their zero value; the assignments that follow it
         fill them in, mode by mode *)
      let input rd rm tf tl sx sm ef el ex em := {|
        IsBenchmark := flag.bool_at fs isBench;
        ApmServerUrl := flag.string_at fs apmServerUrl;
        ApmServerSecret := flag.string_at fs apmServerSecret;
        APIKey := flag.string_at fs apmServerAPIKey;
        ElasticsearchUrl := flag.string_at fs elasticsearchUrl;
        ElasticsearchAuth := flag.string_at fs elasticsearchAuth;
        ApmElasticsearchUrl := flag.string_at fs apmElasticsearchUrl;
        ApmElasticsearchAuth := flag.string_at fs apmElasticsearchAuth;
        ServiceName := serviceName;
        RunTimeout := flag.duration_at fs runTimeout;
        FlushTimeout := flag.duration_at fs flushTimeout;
        Instances := flag.int_at fs instances;
        DelayMillis := flag.int_at fs delayMillis;
        RegressionDays := rd;
        RegressionMargin := rm;
        TransactionFrequency := tf;
        TransactionLimit := tl;
        SpanMaxLimit := sx;
        SpanMinLimit := sm;
        ErrorFrequency := ef;
        ErrorLimit := el;
        ErrorFrameMaxLimit := ex;
        ErrorFrameMinLimit := em
      |} in
      if flag.bool_at fs isBench then
        match strconv.Atoi (flag.string_at fs regressionDays) with
        | None => (Panicked (AtoiError (flag.string_at fs regressionDays)), p)
        | Some _ =>
            (Returned (input (flag.string_at fs regressionDays)
                             (flag.float64_at fs regressionMargin)
                             0 0 0 0 0 0 0 0), p)
        end
      else
        (Returned (input "" 0%float
                         (flag.duration_at fs transactionFrequency)
                         (flag.int_at fs transactionLimit)
                         (flag.int_at fs spanMaxLimit)
                         (flag.int_at fs spanMinLimit)
                         (flag.duration_at fs errorFrequency)
                         (flag.int_at fs errorLimit)
                         (flag.int_at fs errorFrameMaxLimit)
                         (flag.int_at fs errorFrameMinLimit)), p)
  end.

(** ** runWorkers *)

(** One goroutine started by [g.Go]: the closure of [runWorkers] wrapped by
    the errgroup.  Instance [idx] is the task at position [idx]. *)
Inductive task :=
| TStart                      (* started; next is [rand.Intn] *)
| TSleep (d : Z)              (* in [time.Sleep(d)] *)
| TRun                        (* in [worker.Run] *)
| TRet (r : option error)     (* the closure returned r; the group has not seen it *)
| TDone (r : option error).   (* the group has seen r; [wg.Done()] was called *)

Inductive rw_point :=
| RSpawn (i : Z)                (* in the loop, about to test [i < input.Instances] *)
| RWait                         (* in [g.Wait()] *)
| RReturned (r : option error)  (* [runWorkers] returned r *)
| RCrashed (v : panic_value).   (* a goroutine panicked: the process is gone *)

Record rw_state := {
  rw_rng : rng;              (* the generator of math/rand *)
  rw_trace : trace;          (* the events since the call *)
  rw_ctx : bool;             (* the context of the group is cancelled *)
  rw_wg : nat;               (* the group's WaitGroup counter *)
  rw_err : option error;     (* the error the group's errOnce stored *)
  rw_tasks : list task;
  rw_pc : rw_point
}.

Definition set_pc (pc : rw_point) (s : rw_state) : rw_state :=
  {| rw_rng := rw_rng s; rw_trace := rw_trace s; rw_ctx := rw_ctx s; rw_wg := rw_wg s;
     rw_err := rw_err s; rw_tasks := rw_tasks s; rw_pc := pc |}.

Definition set_task (idx : nat) (t : task) (s : rw_state) : rw_state :=
  {| rw_rng := rw_rng s; rw_trace := rw_trace s; rw_ctx := rw_ctx s; rw_wg := rw_wg s;
     rw_err := rw_err s; rw_tasks := <[idx := t]> (rw_tasks s); rw_pc := rw_pc s |}.

Definition emit (e : event) (s : rw_state) : rw_state :=
  {| rw_rng := rw_rng s; rw_trace := e :: rw_trace s; rw_ctx := rw_ctx s; rw_wg := rw_wg s;
     rw_err := rw_err s; rw_tasks := rw_tasks s; rw_pc := rw_pc s |}.

Definition set_rng (g : rng) (s : rw_state) : rw_state :=
  {| rw_rng := g; rw_trace := rw_trace s; rw_ctx := rw_ctx s; rw_wg := rw_wg s;
     rw_err := rw_err s; rw_tasks := rw_tasks s; rw_pc := rw_pc s |}.

(** [g.Go(f)]: [wg.Add(1)] and a new goroutine. *)
Definition group_go (s : rw_state) : rw_state :=
  {| rw_rng := rw_rng s; rw_trace := rw_trace s; rw_ctx := rw_ctx s; rw_wg := S (rw_wg s);
     rw_err := rw_err s; rw_tasks := rw_tasks s ++ [TStart]; rw_pc := rw_pc s |}.

(** The errgroup's [errOnce.Do]: the first non-nil error is kept and the
    context is cancelled; later ones are dropped. *)
Definition group_fail (e : error) (s : rw_state) : rw_state :=
  match rw_err s with
  | None =>
      {| rw_rng := rw_rng s; rw_trace := rw_trace s; rw_ctx := true; rw_wg := rw_wg s;
         rw_err := Some e; rw_tasks := rw_tasks s; rw_pc := rw_pc s |}
  | Some _ => s
  end.

(** [wg.Done()]. *)
Definition group_done (s : rw_state) : rw_state :=
  {| rw_rng := rw_rng s; rw_trace := rw_trace s; rw_ctx := rw_ctx s; rw_wg := pred (rw_wg s);
     rw_err := rw_err s; rw_tasks := rw_tasks s; rw_pc := rw_pc s |}.

(** The end of [g.Wait()]: the context is cancelled and the stored error is
    the result. *)
Definition group_wait_return (s : rw_state) : rw_state :=
  {| rw_rng := rw_rng s; rw_trace := rw_trace s; rw_ctx := true; rw_wg := rw_wg s;
     rw_err := rw_err s; rw_tasks := rw_tasks s; rw_pc := RReturned (rw_err s) |}.

(** The moves of the goroutines. *)
Inductive action :=
| AMain                                       (* the goroutine that runs [Main] *)
| ATask (idx : nat)                           (* instance idx, outside [worker.Run] *)
| AFacadeDraw (idx : nat) (n : Z)             (* [worker.Run] of idx calls [rand.Intn(n)] *)
| AFacadeRet (idx : nat) (r : option error)   (* [worker.Run] of idx returns r *)
| ABenchRet (r : option error)                (* [benchmark.Run] returns r *)
| ABridge (k : nat)                           (* the k-th interrupt goroutine *)
| AInterrupt.                                 (* the system delivers an interrupt *)

(** The state right after [errgroup.WithContext(context.Background())]. *)
Definition runWorkers_start (g : rng) : rw_state :=
  {| rw_rng := g; rw_trace := []; rw_ctx := false; rw_wg := 0%nat; rw_err := None;
     rw_tasks := []; rw_pc := RSpawn 0 |}.

Definition worker_args (input : Input) (stop : chan_ref) : call_args :=
  {| call_ctx := CtxGroup; call_input := input; call_id := ""; call_stop := stop |}.

(** One move of one goroutine of [runWorkers(input, stop)]; [None] when the
    goroutine cannot move (it is blocked, done, or not there). *)
Definition rw_step (input : Input) (stop : chan_ref) (a : action) (s : rw_state)
    : option rw_state :=
  match rw_pc s with
  | RReturned _ | RCrashed _ => None
  | pc =>
      match a with
      | AMain =>
          match pc with
          | RSpawn i =>
              if i <? Instances input
              then Some (set_pc (RSpawn (i + 1)) (group_go s))
              else Some (set_pc RWait s)
          | RWait =>
              match rw_wg s with
              | O => Some (group_wait_return s)
              | S _ => None
              end
          | _ => None
          end
      | ATask idx =>
          match rw_tasks s !! idx with
          | Some TStart =>
              match rand_Intn (DelayMillis input) (rw_rng s) with
              | None => Some (set_pc (RCrashed IntnInvalid) s)
              | Some (r, g) =>
                  let randomDelay := duration_mul r Millisecond in
                  Some (set_task idx (TSleep randomDelay)
                          (emit (ESleep idx randomDelay)
                             (emit (EDraw (Jitter idx) (DelayMillis input) r)
                                (set_rng g s))))
              end
          | Some (TSleep _) =>
              Some (set_task idx TRun (emit (ECall idx (worker_args input stop)) s))
          | Some (TRet r) =>
              let s :=
                match r with
                | Some e => group_fail e (emit (EFail idx e) s)
                | None => s
                end in
              Some (set_task idx (TDone r) (group_done s))
          | _ => None
          end
      | AFacadeDraw idx n =>
          match rw_tasks s !! idx with
          | Some TRun =>
              match rand_Intn n (rw_rng s) with
              | Some (r, g) => Some (emit (EDraw (Facade idx) n r) (set_rng g s))
              | None => None
              end
          | _ => None
          end
      | AFacadeRet idx r =>
          match rw_tasks s !! idx with
          | Some TRun => Some (set_task idx (TRet r) (emit (ERet idx r) s))
          | _ => None
          end
      | _ => None
      end
  end.

(** [runWorkers] is still running: it has neither returned nor crashed. *)
Definition running (s : rw_state) : Prop :=
  match rw_pc s with RSpawn _ | RWait => True | _ => False end.

(** The moves of [rw_step], one rule per move. *)
Inductive rw_moves (input : Input) (stop : chan_ref) : action → rw_state → rw_state → Prop :=
| mv_spawn s i :
    rw_pc s = RSpawn i → i < Instances input →
    rw_moves input stop AMain s (set_pc (RSpawn (i + 1)) (group_go s))
| mv_loop_exit s i :
    rw_pc s = RSpawn i → Instances input ≤ i →
    rw_moves input stop AMain s (set_pc RWait s)
| mv_wait s :
    rw_pc s = RWait → rw_wg s = 0%nat →
    rw_moves input stop AMain s (group_wait_return s)
| mv_panic s idx :
    running s → rw_tasks s !! idx = Some TStart → DelayMillis input ≤ 0 →
    rw_moves input stop (ATask idx) s (set_pc (RCrashed IntnInvalid) s)
| mv_draw s idx r g :
    running s → rw_tasks s !! idx = Some TStart → 0 < DelayMillis input →
    rng_intn (rw_rng s) (DelayMillis input) = (r, g) →
    rw_moves input stop (ATask idx) s
      (set_task idx (TSleep (duration_mul r Millisecond))
         (emit (ESleep idx (duration_mul r Millisecond))
            (emit (EDraw (Jitter idx) (DelayMillis input) r) (set_rng g s))))
| mv_call s idx d :
    running s → rw_tasks s !! idx = Some (TSleep d) →
    rw_moves input stop (ATask idx) s
      (set_task idx TRun (emit (ECall idx (worker_args input stop)) s))
| mv_fail s idx e :
    running s → rw_tasks s !! idx = Some (TRet (Some e)) →
    rw_moves input stop (ATask idx) s
      (set_task idx (TDone (Some e)) (group_done (group_fail e (emit (EFail idx e) s))))
| mv_done s idx :
    running s → rw_tasks s !! idx = Some (TRet None) →
    rw_moves input stop (ATask idx) s (set_task idx (TDone None) (group_done s))
| mv_facade_draw s idx n r g :
    running s → rw_tasks s !! idx = Some TRun → 0 < n →
    rng_intn (rw_rng s) n = (r, g) →
    rw_moves input stop (AFacadeDraw idx n) s (emit (EDraw (Facade idx) n r) (set_rng g s))
| mv_facade_ret s idx r :
    running s → rw_tasks s !! idx = Some TRun →
    rw_moves input stop (AFacadeRet idx r) s (set_task idx (TRet r) (emit (ERet idx r) s)).

(** Running a schedule, one action after the other. *)
Fixpoint rw_exec (input : Input) (stop : chan_ref) (sched : list action) (s : rw_state)
    : option rw_state :=
  match sched with
  | [] => Some s
  | a :: rest =>
      match rw_step input stop a s with
      | Some s' => rw_exec input stop rest s'
      | None => None
      end
  end.

(** The states [runWorkers(input, stop)] can be in when it is called with
    the generator in state [g]. *)
Definition rw_reachable (input : Input) (stop : chan_ref) (g : rng) (s : rw_state) : Prop :=
  ∃ sched, rw_exec input stop sched (runWorkers_start g) = Some s.

(** ** Main *)

(** What the interrupt goroutine does when its receive from [signalC]
    completes: cancel the context (benchmark mode) or close [stopChan]
    (load generation). *)
Inductive discipline := HardCancel | GracefulStop.

Inductive bridge_point :=
| BWaiting      (* blocked in [<-signalC] *)
| BReceived     (* received; next are [log.Printf] and the deferred call *)
| BDone.

Record bridge := { b_kind : discipline; b_pc : bridge_point }.

Inductive main_point :=
| MStart (p : proc)                     (* [signal.Notify] done; next is [parseFlags] *)
| MParsed (input : Input) (p : proc)    (* about to test [input.IsBenchmark] *)
| MBench (input : Input)                (* in [benchmark.Run(ctx, input)] *)
| MLoad (input : Input) (w : rw_state)  (* in [runWorkers(input, stopChan)] *)
| MReturned (r : option error)          (* [Main] returned r *)
| MCrashed (v : panic_value)
| MExited (code : Z).

Record main_state := {
  m_sig : bool;                (* [signalC] (capacity 1) holds a signal *)
  m_interrupts : nat;          (* interrupts delivered so far *)
  m_bridges : list bridge;     (* the interrupt goroutines started so far *)
  m_bench_ctx : bool;          (* the context of benchmark mode is cancelled *)
  m_stop : bool;               (* [stopChan] is closed *)
  m_pc : main_point
}.

Definition stopChan : chan_ref := 0%nat.

Definition Main_start (p : proc) : main_state :=
  {| m_sig := false; m_interrupts := 0%nat; m_bridges := []; m_bench_ctx := false;
     m_stop := false; m_pc := MStart p |}.

(** The process as the runtime starts it: [init], then [Main]. *)
Definition process_start : main_state := Main_start (init boot).

Definition main_set_pc (pc : main_point) (s : main_state) : main_state :=
  {| m_sig := m_sig s; m_interrupts := m_interrupts s; m_bridges := m_bridges s;
     m_bench_ctx := m_bench_ctx s; m_stop := m_stop s; m_pc := pc |}.

(** [go func() { defer ...; <-signalC; ... }()] *)
Definition main_go (d : discipline) (s : main_state) : main_state :=
  {| m_sig := m_sig s; m_interrupts := m_interrupts s;
     m_bridges := m_bridges s ++ [{| b_kind := d; b_pc := BWaiting |}];
     m_bench_ctx := m_bench_ctx s; m_stop := m_stop s; m_pc := m_pc s |}.

Definition set_bridge (k : nat) (b : bridge) (s : main_state) : main_state :=
  {| m_sig := m_sig s; m_interrupts := m_interrupts s; m_bridges := <[k := b]> (m_bridges s);
     m_bench_ctx := m_bench_ctx s; m_stop := m_stop s; m_pc := m_pc s |}.

Definition set_sig (b : bool) (s : main_state) : main_state :=
  {| m_sig := b; m_interrupts := m_interrupts s; m_bridges := m_bridges s;
     m_bench_ctx := m_bench_ctx s; m_stop := m_stop s; m_pc := m_pc s |}.

(** An interrupt: the runtime sends on [signalC] without blocking, so the
    signal is dropped when the buffer is full. *)
Definition deliver (s : main_state) : main_state :=
  {| m_sig := true; m_interrupts := S (m_interrupts s); m_bridges := m_bridges s;
     m_bench_ctx := m_bench_ctx s; m_stop := m_stop s; m_pc := m_pc s |}.

(** [cancel()] of the benchmark context. *)
Definition cancel_bench (s : main_state) : main_state :=
  {| m_sig := m_sig s; m_interrupts := m_interrupts s; m_bridges := m_bridges s;
     m_bench_ctx := true; m_stop := m_stop s; m_pc := m_pc s |}.

(** [close(stopChan)]. *)
Definition close_stop (s : main_state) : main_state :=
  {| m_sig := m_sig s; m_interrupts := m_interrupts s; m_bridges := m_bridges s;
     m_bench_ctx := m_bench_ctx s; m_stop := true; m_pc := m_pc s |}.

(** The process is over: [Main] returned, or the process crashed or
    exited. *)
Definition main_ended (s : main_state) : bool :=
  match m_pc s with
  | MReturned _ | MCrashed _ | MExited _ => true
  | MLoad _ w => match rw_pc w with RReturned _ | RCrashed _ => true | _ => false end
  | _ => false
  end.

(** What [Main] returned, if it did. *)
Definition Main_result (s : main_state) : option (option error) :=
  match m_pc s with
  | MReturned r => Some r
  | MLoad _ w => match rw_pc w with RReturned r => Some r | _ => None end
  | _ => None
  end.

(** One move of one goroutine of the process.  [getenv], [now] and [args]
    are what [parseFlags] reads from the environment. *)
Definition main_step (getenv : string) (now : Z) (args : list (string * flag.value))
    (a : action) (s : main_state) : option main_state :=
  if main_ended s then None
  else
    match a with
    | AInterrupt => Some (deliver s)
    | ABridge k =>
        match m_bridges s !! k with
        | Some {| b_kind := d; b_pc := BWaiting |} =>
            if m_sig s
            then Some (set_bridge k {| b_kind := d; b_pc := BReceived |} (set_sig false s))
            else None
        | Some {| b_kind := d; b_pc := BReceived |} =>
            Some (set_bridge k {| b_kind := d; b_pc := BDone |}
                    match d with
                    | HardCancel => cancel_bench s
                    | GracefulStop => close_stop s
                    end)
        | _ => None
        end
    | ABenchRet r =>
        match m_pc s with
        | MBench _ => Some (main_set_pc (MReturned r) (cancel_bench s))
        | _ => None
        end
    | a =>
        match m_pc s with
        | MStart p =>
            match a with
            | AMain =>
                match parseFlags getenv now args p with
                | (Returned input, p) => Some (main_set_pc (MParsed input p) s)
                | (Panicked v, _) => Some (main_set_pc (MCrashed v) s)
                | (Exited c, _) => Some (main_set_pc (MExited c) s)
                end
            | _ => None
            end
        | MParsed input p =>
            match a with
            | AMain =>
                if IsBenchmark input
                then Some (main_set_pc (MBench input) (main_go HardCancel s))
                else Some (main_set_pc (MLoad input (runWorkers_start (p_rng p)))
                             (main_go GracefulStop s))
            | _ => None
            end
        | MLoad input w =>
            match rw_step input stopChan a w with
            | Some w' => Some (main_set_pc (MLoad input w') s)
            | None => None
            end
        | _ => None
        end
    end.

Fixpoint main_exec (getenv : string) (now : Z) (args : list (string * flag.value))
    (sched : list action) (s : main_state) : option main_state :=
  match sched with
  | [] => Some s
  | a :: rest =>
      match main_step getenv now args a s with
      | Some s' => main_exec getenv now args rest s'
      | None => None
      end
  end.

(** The states of a process run. *)
Definition main_reachable (getenv : string) (now : Z) (args : list (string * flag.value))
    (s : main_state) : Prop :=
  ∃ sched, main_exec getenv now args sched process_start = Some s.

End Program.

(** ** Reading traces and flag sets *)

(** The seeds given to [rand.Seed], oldest first. *)
Definition seeds (tr : trace) : list Z :=
  rev (omap (λ e, match e with ESeed z => Some z | _ => None end) tr).

(** The error of the oldest [EFail] event: the first failure the group saw. *)
Fixpoint first_failure (tr : trace) : option error :=
  match tr with
  | [] => None
  | e :: older =>
      match first_failure older with
      | Some x => Some x
      | None => match e with EFail _ x => Some x | _ => None end
      end
  end.

(** The events of the closure of instance [idx] (the draws made inside
    [worker.Run] are not among them). *)
Definition belongs (idx : nat) (e : event) : bool :=
  match e with
  | EDraw (Jitter i) _ _ | ESleep i _ | ECall i _ | ERet i _ | EFail i _ => Nat.eqb i idx
  | _ => false
  end.

(** The events of instance [idx], oldest first. *)
Definition events_of (idx : nat) (tr : trace) : list event :=
  rev (filter (λ e, belongs idx e = true) tr).

(** The jitter drawn for instance [idx], if it has drawn. *)
Fixpoint jitter_of (idx : nat) (tr : trace) : option Z :=
  match tr with
  | [] => None
  | EDraw (Jitter i) _ r :: older =>
      if Nat.eqb i idx then Some r else jitter_of idx older
  | _ :: older => jitter_of idx older
  end.

(** The draws of a run: who asked and with what bound, most recent first. *)
Definition draws (tr : trace) : list (drawer * Z) :=
  omap (λ e, match e with EDraw who n _ => Some (who, n) | _ => None end) tr.

Definition is_draw (e : event) : bool :=
  match e with EDraw _ _ _ => true | _ => false end.

(** The draw events of a run, most recent first. *)
Definition draw_events (tr : trace) : list event :=
  filter (λ e, is_draw e = true) tr.

(** The last value the command line gives to a flag. *)
Fixpoint supplied (name : string) (args : list (string * flag.value)) : option flag.value :=
  match args with
  | [] => None
  | (n, v) :: rest =>
      match supplied name rest with
      | Some w => Some w
      | None => if String.eqb n name then Some v else None
      end
  end.

(** The seed [parseFlags] uses: the one on the command line, or else the
    current time. *)
Definition seed_of (now : Z) (args : list (string * flag.value)) : Z :=
  match supplied "seed" args with
  | Some (flag.VInt64 z) => z
  | _ => now
  end.

(** The flags [parseFlags] has defined when it calls [flag.Parse], with their
    defaults.  [service-name] is defined only when the environment variable
    is empty. *)
Definition flags_defined (getenv : string) (now : Z) : gmap string flag.value :=
  let run_options :=
    [("run", flag.VDuration (30 * Second)); ("flush", flag.VDuration (10 * Second));
     ("seed", flag.VInt64 now); ("instances", flag.VInt 1); ("delay", flag.VInt 1000)] in
  let service :=
    if String.eqb getenv "" then [("service-name", flag.VString "hey-service")] else [] in
  let others :=
    [("apm-secret", flag.VString ""); ("api-key", flag.VString "");
     ("apm-url", flag.VString "http://localhost:8200");
     ("es-url", flag.VString "http://localhost:9200"); ("es-auth", flag.VString "");
     ("apm-es-url", flag.VString "http://localhost:9200"); ("apm-es-auth", flag.VString "");
     ("bench", flag.VBool false); ("rm", flag.VFloat64 0x1.199999999999ap+0);
     ("rd", flag.VString "7"); ("e", flag.VInt max_int64);
     ("ef", flag.VDuration (1 * Nanosecond)); ("ex", flag.VInt 10); ("em", flag.VInt 0);
     ("sx", flag.VInt 10); ("sm", flag.VInt 1); ("t", flag.VInt max_int64);
     ("tf", flag.VDuration (1 * Nanosecond))] in
  foldl (λ fs d, (flag.define d.1 d.2 fs).2) ∅ (run_options ++ service ++ others).

(** The service name [parseFlags] settles on before it parses the command
    line. *)
Definition service_name (getenv : string) : string :=
  if String.eqb getenv "" then "hey-service" else getenv.

(** The time a goroutine stays in [time.Sleep(d)] at least: a negative or
    zero duration returns at once. *)
Definition sleep_time (d : Z) : Z := Z.max 0 d.

Section Lifecycle.

Context `{G : Generator}.

(** The events instance [idx] has produced when its task is in state [t],
    oldest first: the draw of [r], the sleep, the call of the facade, its
    return and, for a non-nil result, the failure handed to the group. *)
Definition lifecycle (input : Input) (stop : chan_ref) (idx : nat) (r : Z)
    (t : option task) : list event :=
  let started :=
    [EDraw (Jitter idx) (DelayMillis input) r; ESleep idx (duration_mul r Millisecond)] in
  let called := started ++ [ECall idx (worker_args input stop)] in
  match t with
  | None | Some TStart => []
  | Some (TSleep _) => started
  | Some TRun => called
  | Some (TRet res) => called ++ [ERet idx res]
  | Some (TDone res) =>
      called ++ [ERet idx res] ++ match res with Some e => [EFail idx e] | None => [] end
  end.

(** The task has drawn its jitter [r]. *)
Definition drawn (input : Input) (r : Z) (t : option task) : Prop :=
  match t with
  | None | Some TStart => True
  | Some (TSleep d) => 0 ≤ r < DelayMillis input ∧ d = duration_mul r Millisecond
  | Some _ => 0 ≤ r < DelayMillis input
  end.

Definition is_done (t : task) : bool :=
  match t with TDone _ => true | _ => false end.

(** The number of tasks that have not called [wg.Done()] yet. *)
Fixpoint pending (ts : list task) : nat :=
  match ts with
  | [] => 0
  | t :: rest => (if is_done t then 0 else 1) + pending rest
  end%nat.

(** The group has stored an error. *)
Definition failed (s : rw_state) : bool :=
  match rw_err s with Some _ => true | None => false end.

Definition returned (s : rw_state) : bool :=
  match rw_pc s with RReturned _ => true | _ => false end.

(** The generator state and the draw events that a sequence of draws (most
    recent first) produces from state [g0]. *)
Fixpoint replay (g0 : rng) (ds : list (drawer * Z)) : rng * list event :=
  match ds with
  | [] => (g0, [])
  | (who, n) :: older =>
      let '(g, evs) := replay g0 older in
      let '(r, g') := rng_intn g n in
      (g', EDraw who n r :: evs)
  end.

(** The first non-nil result of a list of results. *)
Fixpoint first_error (rs : list (option error)) : option error :=
  match rs with
  | [] => None
  | Some e :: _ => Some e
  | None :: rest => first_error rest
  end.

(** The moves of instance [idx] from its start to the end, the facade
    returning [r]. *)
Definition run_instance (idx : nat) (r : option error) : list action :=
  [ATask idx; ATask idx; AFacadeRet idx r; ATask idx].

(** A schedule that runs the instances one after the other, in index
    order, the facade of instance [k] returning the k-th element of [rs];
    [from] is the index of the first one. *)
Fixpoint run_instances (from : nat) (rs : list (option error)) : list action :=
  match rs with
  | [] => []
  | r :: rest => run_instance from r ++ run_instances (S from) rest
  end.

Definition sequential (rs : list (option error)) : list action :=
  replicate (length rs) AMain ++ [AMain] ++ run_instances 0 rs ++ [AMain].

(** What holds in every state of [runWorkers(input, stop)] called with the
    generator in state [g0]. *)
Record rw_inv (input : Input) (stop : chan_ref) (g0 : rng) (s : rw_state) : Prop := {
  inv_wg : rw_wg s = pending (rw_tasks s);
  inv_loop :
    match rw_pc s with
    | RSpawn i => i = Z.of_nat (length (rw_tasks s)) ∧ i ≤ Z.max 0 (Instances input)
    | RWait | RReturned _ => Z.of_nat (length (rw_tasks s)) = Z.max 0 (Instances input)
    | RCrashed _ => Z.of_nat (length (rw_tasks s)) ≤ Z.max 0 (Instances input)
    end;
  inv_err : rw_err s = first_failure (rw_trace s);
  inv_ctx : rw_ctx s = failed s || returned s;
  inv_ret : ∀ r, rw_pc s = RReturned r → r = rw_err s ∧ rw_wg s = 0%nat;
  inv_crash : ∀ v, rw_pc s = RCrashed v → v = IntnInvalid ∧ DelayMillis input ≤ 0;
  inv_tasks : ∀ idx, ∃ r,
    drawn input r (rw_tasks s !! idx) ∧
    events_of idx (rw_trace s) = lifecycle input stop idx r (rw_tasks s !! idx);
  inv_seeds : seeds (rw_trace s) = [];
  inv_draws : replay g0 (draws (rw_trace s)) = (rw_rng s, draw_events (rw_trace s))
}.

Definition bridge_done (bp : bridge_point) : bool :=
  match bp with BDone => true | _ => false end.

(** What holds in every state of a process run, by the point [Main] is
    at. *)
Definition main_inv (getenv : string) (now : Z) (args : list (string * flag.value))
    (s : main_state) : Prop :=
  (m_interrupts s = 0%nat →
   m_sig s = false ∧ ∀ b, b ∈ m_bridges s → b_pc b = BWaiting) ∧
  match m_pc s with
  | MStart p =>
      p = init boot ∧ m_bridges s = [] ∧ m_bench_ctx s = false ∧ m_stop s = false
  | MParsed input p =>
      parseFlags getenv now args (init boot) = (Returned input, p) ∧
      m_bridges s = [] ∧ m_bench_ctx s = false ∧ m_stop s = false
  | MBench input =>
      (∃ p, parseFlags getenv now args (init boot) = (Returned input, p)) ∧
      IsBenchmark input = true ∧ m_stop s = false ∧
      ∃ bp, m_bridges s = [{| b_kind := HardCancel; b_pc := bp |}] ∧
            m_bench_ctx s = bridge_done bp
  | MLoad input w =>
      (∃ p, parseFlags getenv now args (init boot) = (Returned input, p) ∧
            rw_reachable input stopChan (p_rng p) w) ∧
      IsBenchmark input = false ∧ m_bench_ctx s = false ∧
      ∃ bp, m_bridges s = [{| b_kind := GracefulStop; b_pc := bp |}] ∧
            m_stop s = bridge_done bp
  | MReturned r =>
      (∃ input p, parseFlags getenv now args (init boot) = (Returned input, p) ∧
                  IsBenchmark input = true) ∧
      m_stop s = false ∧ m_bench_ctx s = true ∧
      ∃ bp, m_bridges s = [{| b_kind := HardCancel; b_pc := bp |}]
  | MCrashed v =>
      (∃ p, parseFlags getenv now args (init boot) = (Panicked v, p)) ∧
      m_bridges s = [] ∧ m_bench_ctx s = false ∧ m_stop s = false
  | MExited c =>
      (∃ p, parseFlags getenv now args (init boot) = (Exited c, p)) ∧
      m_bridges s = [] ∧ m_bench_ctx s = false ∧ m_stop s = false
  end.

End Lifecycle.

(** ** Sample inputs *)

(** A load-generation configuration with [n] instances and a jitter bound of
    [d] milliseconds; the other fields are the defaults. *)
Definition sample_input (n d : Z) : Input := {|
  IsBenchmark := false;
  ApmServerUrl := "http://localhost:8200";
  ApmServerSecret := "";
  APIKey := "";
  ElasticsearchUrl := "http://localhost:9200";
  ElasticsearchAuth := "";
  ApmElasticsearchUrl := "http://localhost:9200";
  ApmElasticsearchAuth := "";
  ServiceName := "hey-service";
  RunTimeout := 30 * Second;
  FlushTimeout := 10 * Second;
  Instances := n;
  DelayMillis := d;
  RegressionDays := "";
  RegressionMargin := 0%float;
  TransactionFrequency := 1;
  TransactionLimit := max_int64;
  SpanMaxLimit := 10;
  SpanMinLimit := 1;
  ErrorFrequency := 1;
  ErrorLimit := max_int64;
  ErrorFrameMaxLimit := 10;
  ErrorFrameMinLimit := 0
|}.

(** ** The value a flag ends with *)

(** The value of a flag after [flag.Parse]: the last one the command line
    gives it, or else its default. *)
Definition bool_flag (name : string) (def : bool) (args : list (string * flag.value)) : bool :=
  match supplied name args with Some (flag.VBool b) => b | _ => def end.

Definition int_flag (name : string) (def : Z) (args : list (string * flag.value)) : Z :=
  match supplied name args with Some (flag.VInt z) => z | _ => def end.

Definition duration_flag (name : string) (def : Z) (args : list (string * flag.value)) : Z :=
  match supplied name args with Some (flag.VDuration z) => z | _ => def end.

Definition string_flag (name : string) (def : string) (args : list (string * flag.value))
    : string :=
  match supplied name args with Some (flag.VString s) => s | _ => def end.

(** The fields [parseFlags] fills in both modes, read from the flag set. *)
Definition common_fields (getenv : string) (fs : gmap string flag.value) (input : Input)
    : Prop :=
  IsBenchmark input = flag.bool_at fs "bench" ∧
  ApmServerUrl input = flag.string_at fs "apm-url" ∧
  ApmServerSecret input = flag.string_at fs "apm-secret" ∧
  APIKey input = flag.string_at fs "api-key" ∧
  ElasticsearchUrl input = flag.string_at fs "es-url" ∧
  ElasticsearchAuth input = flag.string_at fs "es-auth" ∧
  ApmElasticsearchUrl input = flag.string_at fs "apm-es-url" ∧
  ApmElasticsearchAuth input = flag.string_at fs "apm-es-auth" ∧
  ServiceName input = service_name getenv ∧
  RunTimeout input = flag.duration_at fs "run" ∧
  FlushTimeout input = flag.duration_at fs "flush" ∧
  Instances input = flag.int_at fs "instances" ∧
  DelayMillis input = flag.int_at fs "delay".

(** ** More on runs of runWorkers *)

(** The arguments of the calls of the facade that instance [idx] has made,
    oldest first. *)
Definition calls (idx : nat) (tr : list event) : list call_args :=
  omap (λ e, match e with ECall _ a => Some a | _ => None end) (events_of idx tr).

(** The moves that take a task from where it is to its end, its facade
    returning nil if it has not returned yet. *)
Definition finish_task (idx : nat) (t : task) : list action :=
  match t with
  | TStart => [ATask idx; ATask idx; AFacadeRet idx None; ATask idx]
  | TSleep _ => [ATask idx; AFacadeRet idx None; ATask idx]
  | TRun => [AFacadeRet idx None; ATask idx]
  | TRet _ => [ATask idx]
  | TDone _ => []
  end.

Fixpoint finish_tasks (from : nat) (ts : list task) : list action :=
  match ts with
  | [] => []
  | t :: rest => finish_task from t ++ finish_tasks (S from) rest
  end.

(** A schedule that takes a running [runWorkers] to its return: the loop
    starts the instances that are left, every task is taken to its end, in
    index order, and [g.Wait()] returns. *)
Definition finish `{G : Generator} (input : Input) (s : rw_state) : list action :=
  match rw_pc s with
  | RSpawn i =>
      let left := Z.to_nat (Instances input - i) in
      replicate left AMain ++ [AMain] ++
      finish_tasks 0 (rw_tasks s ++ replicate left TStart) ++ [AMain]
  | RWait => finish_tasks 0 (rw_tasks s) ++ [AMain]
  | _ => []
  end.

(** A generator that counts: the state is the next raw value. *)
Module Counter.

Definition seed (s : Z) : Z := s.
Definition intn (g n : Z) : Z * Z := (g mod n, g + 1).

#[export] Instance generator : Generator :=
  {| rng := Z; rng_seed := seed; rng_intn := intn;
     rng_intn_range := λ g n Hn, Z.mod_pos_bound g n Hn |}.

End Counter.

(** ** main *)

(** The status the process ends with, when it has ended.  [main] calls
    [log.Fatal] on a non-nil error of [Main], which exits with status 1, and
    returns otherwise (status 0); a panic that nothing recovers ends the
    process with status 2; [flag.Parse] chooses the status when it refuses the
    command line. *)
Definition exit_status `{G : Generator} (s : main_state) : option Z :=
  match m_pc s with
  | MReturned None => Some 0
  | MReturned (Some _) => Some 1
  | MCrashed _ => Some 2
  | MExited c => Some c
  | MLoad _ w =>
      match rw_pc w with
      | RReturned None => Some 0
      | RReturned (Some _) => Some 1
      | RCrashed _ => Some 2
      | _ => None
      end
  | _ => None
  end.

(** * Properties *)

(** ** The flag package *)

Lemma Parse_lookup args : ∀ (fs fs' : gmap string flag.value) k,
  flag.Parse args fs = Some fs' →
  fs' !! k = match supplied k args with Some v => Some v | None => fs !! k end.
Proof.
  induction args as [|[n v] rest IH]; intros fs fs' k H; simpl in *.
  - by inversion H.
  - destruct (fs !! n) as [old|] eqn:Hn; [|discriminate].
    destruct (flag.same_kind old v && flag.fits v); [|discriminate].
    rewrite (IH _ _ k H). destruct (supplied k rest); [done|].
    destruct (String.eqb_spec n k) as [->|Hne].
    + by rewrite lookup_insert_eq.
    + by rewrite lookup_insert_ne.
Qed.

Lemma Parse_kind args : ∀ (fs fs' : gmap string flag.value) k old,
  flag.Parse args fs = Some fs' → fs !! k = Some old →
  ∃ v, fs' !! k = Some v ∧ flag.same_kind old v = true.
Proof.
  induction args as [|[n v] rest IH]; intros fs fs' k old H Hk; simpl in *.
  - inversion H; subst. exists old. split; [done|]. by destruct old.
  - destruct (fs !! n) as [old'|] eqn:Hn; [|discriminate].
    destruct (flag.same_kind old' v && flag.fits v) eqn:Hc; [|discriminate].
    apply andb_true_iff in Hc as [Hc _].
    destruct (decide (n = k)) as [->|Hne].
    + assert (old' = old) as -> by congruence.
      destruct (IH _ _ k v H) as (w & Hw & Hkw); [by rewrite lookup_insert_eq|].
      exists w. split; [done|]. destruct old, v, w; done.
    + apply (IH _ _ k old H). by rewrite lookup_insert_ne.
Qed.

Lemma flags_defined_seed getenv now :
  flags_defined getenv now !! "seed" = Some (flag.VInt64 now).
Proof.
  unfold flags_defined. destruct (String.eqb getenv ""); vm_compute; reflexivity.
Qed.

Lemma Parse_seed getenv now args fs :
  flag.Parse args (flags_defined getenv now) = Some fs →
  flag.int64_at fs "seed" = seed_of now args.
Proof.
  intros H. unfold flag.int64_at, seed_of.
  destruct (Parse_kind _ _ _ "seed" _ H (flags_defined_seed getenv now)) as (v & Hv & Hk).
  rewrite Hv. pose proof (Parse_lookup _ _ _ "seed" H) as Hl.
  rewrite Hv, flags_defined_seed in Hl.
  destruct (supplied "seed" args) as [w|].
  - inversion Hl; subst. by destruct w.
  - by inversion Hl.
Qed.

(** ** parseFlags *)

Section ConfigurationFacts.

Context `{G : Generator}.

(** What [parseFlags] does, by the outcome of [flag.Parse], the mode and
    the look-back flag. *)
Lemma parseFlags_spec getenv now args p :
  match flag.Parse args (flags_defined getenv now) with
  | None => parseFlags getenv now args p = (Exited 2, p)
  | Some fs =>
      ∃ o, parseFlags getenv now args p = (o, rand_Seed (flag.int64_at fs "seed") p) ∧
        if flag.bool_at fs "bench" then
          match strconv.Atoi (flag.string_at fs "rd") with
          | None => o = Panicked (AtoiError (flag.string_at fs "rd"))
          | Some _ =>
              ∃ input, o = Returned input ∧ IsBenchmark input = true ∧
                ServiceName input = service_name getenv ∧
                SpanMinLimit input = 0 ∧ SpanMaxLimit input = 0
          end
        else
          ∃ input, o = Returned input ∧ IsBenchmark input = false ∧
            ServiceName input = service_name getenv ∧
            SpanMinLimit input = flag.int_at fs "sm" ∧
            SpanMaxLimit input =
              (if flag.int_at fs "sx" <? flag.int_at fs "sm"
               then flag.int_at fs "sm" else flag.int_at fs "sx")
  end.
Proof.
  unfold parseFlags, flags_defined, service_name.
  destruct (String.eqb getenv "") eqn:Henv;
    cbv beta iota zeta delta [flag.define foldl app fst snd];
    (destruct (flag.Parse args _) as [fs|]; [|reflexivity]);
    destruct (flag.bool_at fs "bench") eqn:Hb;
    try destruct (strconv.Atoi _);
    (eexists; split; [reflexivity|]); try reflexivity;
    (eexists; split; [reflexivity|]);
    cbn [IsBenchmark ServiceName SpanMinLimit SpanMaxLimit];
    repeat split; try done;
    try (unfold flag.string_at; rewrite lookup_insert_eq; reflexivity);
    destruct (_ <? _); reflexivity.
Qed.

End ConfigurationFacts.

(** ** Traces *)

Lemma events_of_cons idx e tr :
  events_of idx (e :: tr) = events_of idx tr ++ (if belongs idx e then [e] else []).
Proof.
  unfold events_of. rewrite filter_cons. destruct (belongs idx e) eqn:Hb.
  - rewrite decide_True by done. reflexivity.
  - rewrite decide_False by discriminate. by rewrite app_nil_r.
Qed.

Lemma seeds_cons e tr :
  seeds (e :: tr) = seeds tr ++ match e with ESeed z => [z] | _ => [] end.
Proof. unfold seeds. destruct e; simpl; by rewrite ?app_nil_r. Qed.

Lemma draw_events_cons e tr :
  draw_events (e :: tr) = if is_draw e then e :: draw_events tr else draw_events tr.
Proof.
  unfold draw_events. rewrite filter_cons. destruct (is_draw e) eqn:Hb.
  - by rewrite decide_True.
  - by rewrite decide_False.
Qed.

(** ** runWorkers *)

Section RunWorkersFacts.

Context `{G : Generator}.
Variables (input : Input) (stop : chan_ref).

Lemma rand_Intn_Some n g r g' :
  rand_Intn n g = Some (r, g') → 0 < n ∧ rng_intn g n = (r, g') ∧ 0 ≤ r < n.
Proof.
  unfold rand_Intn. destruct (Z.leb_spec n 0) as [|Hn]; [discriminate|].
  intros [= Hd]. pose proof (rng_intn_range g n Hn) as Hr.
  rewrite Hd in Hr. simpl in Hr. repeat split; (done || lia).
Qed.

Lemma rand_Intn_None n g : rand_Intn n g = None → n ≤ 0.
Proof. unfold rand_Intn. destruct (Z.leb_spec n 0); [done|discriminate]. Qed.

Lemma rand_Intn_nonpositive n g : n ≤ 0 → rand_Intn n g = None.
Proof. unfold rand_Intn. destruct (Z.leb_spec n 0); [done|lia]. Qed.

Lemma rw_exec_app l1 l2 s :
  rw_exec input stop (l1 ++ l2) s =
  match rw_exec input stop l1 s with
  | Some s' => rw_exec input stop l2 s'
  | None => None
  end.
Proof.
  revert s. induction l1 as [|a l1 IH]; intros s; simpl; [done|].
  destruct (rw_step input stop a s); [apply IH|done].
Qed.

(** A property that holds at the start and that every move keeps holds in
    every reachable state. *)
Lemma rw_exec_invariant (P : rw_state → Prop) :
  (∀ a s s', P s → rw_step input stop a s = Some s' → P s') →
  ∀ sched s s', P s → rw_exec input stop sched s = Some s' → P s'.
Proof.
  intros Hstep. induction sched as [|a sched IH]; intros s s' Hs H; simpl in H.
  - by inversion H; subst.
  - destruct (rw_step input stop a s) as [s1|] eqn:Ha; [|discriminate]. eauto.
Qed.

Lemma pending_app ts1 ts2 : pending (ts1 ++ ts2) = (pending ts1 + pending ts2)%nat.
Proof. induction ts1 as [|t ts1 IH]; simpl; [done|]. rewrite IH. lia. Qed.

Lemma pending_insert ts : ∀ idx old new,
  ts !! idx = Some old →
  (pending (<[idx := new]> ts) + (if is_done old then 0 else 1) =
   pending ts + (if is_done new then 0 else 1))%nat.
Proof.
  induction ts as [|t ts IH]; intros idx old new H; [done|].
  destruct idx as [|idx]; simpl in *.
  - inversion H; subst. lia.
  - specialize (IH _ _ new H). lia.
Qed.

Lemma pending_zero ts : pending ts = 0%nat → ∀ idx t, ts !! idx = Some t → is_done t = true.
Proof.
  induction ts as [|t0 ts IH]; intros H idx t Ht; [done|].
  simpl in H. destruct idx as [|idx]; simpl in Ht.
  - inversion Ht; subst. destruct (is_done t); [done|lia].
  - apply (IH ltac:(destruct (is_done t0); lia) idx t Ht).
Qed.

Lemma rw_inv_start g0 : rw_inv input stop g0 (runWorkers_start g0).
Proof.
  split; simpl; try done.
  - lia.
  - intros idx. by exists 0.
Qed.

End RunWorkersFacts.
Section RunWorkersInvariant.

Context `{G : Generator}.
Variables (input : Input) (stop : chan_ref).

Lemma rw_step_moves a s s' :
  rw_step input stop a s = Some s' ↔ rw_moves input stop a s s'.
Proof.
  split.
  - intros Hstep. unfold rw_step in Hstep.
    repeat case_match; simplify_eq;
      try match goal with
      | H : rand_Intn _ _ = Some _ |- _ => apply rand_Intn_Some in H as (? & ? & ?)
      | H : rand_Intn _ _ = None |- _ => apply rand_Intn_None in H
      end;
      econstructor; eauto; unfold running;
      repeat match goal with H : rw_pc _ = _ |- _ => rewrite H end; (done || lia).
  - intros Hmv. unfold rw_step.
    destruct Hmv as [s i Hpc Hi|s i Hpc Hi|s Hpc Hwg|s idx Hr Ht Hd|s idx r g Hr Ht Hd Hg
                    |s idx d Hr Ht|s idx e Hr Ht|s idx Hr Ht|s idx n r g Hr Ht Hn Hg
                    |s idx r Hr Ht];
      unfold running in *; destruct (rw_pc s) eqn:Hpc'; try done; simplify_eq;
      rewrite ?Ht, ?Hwg; try done.
    all: try (unfold rand_Intn; destruct (Z.leb_spec (DelayMillis input) 0); try lia;
              rewrite ?Hg; done).
    all: try (unfold rand_Intn; destruct (Z.leb_spec n 0); try lia; rewrite ?Hg; done).
    all: destruct (Z.ltb_spec i (Instances input)); (done || lia).
Qed.

Lemma first_failure_cons e tr :
  first_failure (e :: tr) =
  match first_failure tr with
  | Some x => Some x
  | None => match e with EFail _ x => Some x | _ => None end
  end.
Proof. done. Qed.

Lemma lookup_snoc_start (ts : list task) idx :
  (ts ++ [TStart]) !! idx = ts !! idx ∨
  (ts !! idx = None ∧ (ts ++ [TStart]) !! idx = Some TStart) .
Proof.
  destruct (ts !! idx) as [t|] eqn:Ht.
  - left. by apply lookup_app_l_Some.
  - apply lookup_ge_None in Ht. destruct (decide (idx = length ts)) as [->|Hne].
    + right. split; [done|]. by rewrite list_lookup_middle.
    + left. apply lookup_ge_None. rewrite length_app. simpl. lia.
Qed.

(** A move of instance [idx] that appends [evs] to its events and nothing
    to the events of the others keeps every instance on its life cycle. *)
Lemma lifecycle_update (tr tr' : list event) (ts : list task) idx old new evs :
  (∀ i, ∃ r, drawn input r (ts !! i) ∧ events_of i tr = lifecycle input stop i r (ts !! i)) →
  ts !! idx = Some old →
  (∀ i, events_of i tr' = events_of i tr ++ (if Nat.eqb idx i then evs else [])) →
  (∀ r, drawn input r (Some old) →
        ∃ r', drawn input r' (Some new) ∧
              lifecycle input stop idx r (Some old) ++ evs =
              lifecycle input stop idx r' (Some new)) →
  ∀ i, ∃ r, drawn input r (<[idx := new]> ts !! i) ∧
            events_of i tr' = lifecycle input stop i r (<[idx := new]> ts !! i).
Proof.
  intros Hts Hold Hev Hnew i. destruct (Hts i) as (r & Hd & He). rewrite Hev, He.
  destruct (Nat.eqb_spec idx i) as [<-|Hne].
  - rewrite Hold in Hd |- *. destruct (Hnew r Hd) as (r' & Hd' & Hl). exists r'.
    rewrite list_lookup_insert_eq by (by eapply lookup_lt_Some). by rewrite Hl.
  - exists r. rewrite list_lookup_insert_ne by done. by rewrite app_nil_r.
Qed.

Lemma running_not_returned s : running s → returned s = false.
Proof. unfold running, returned. by destruct (rw_pc s). Qed.

Lemma rw_inv_step g0 a s s' :
  rw_inv input stop g0 s → rw_step input stop a s = Some s' → rw_inv input stop g0 s'.
Proof.
  intros [Hwg Hloop Herr Hctx Hret Hcrash Htasks Hseeds Hdraws] Hstep.
  apply rw_step_moves in Hstep.
  destruct Hstep as [s i Hpc Hi|s i Hpc Hi|s Hpc Hwg0|s idx Hr Ht Hd|s idx r g Hr Ht Hd Hg
                    |s idx d Hr Ht|s idx e Hr Ht|s idx Hr Ht|s idx n r g Hr Ht Hn Hg
                    |s idx r Hr Ht].
  - (* spawn *)
    rewrite Hpc in Hloop. split; simpl; try done.
    + rewrite pending_app. simpl. lia.
    + rewrite length_app. simpl. lia.
    + rewrite Hctx. unfold failed, returned. simpl. by rewrite Hpc.
    + intros idx. destruct (Htasks idx) as (r & Hd & He). exists r.
      destruct (lookup_snoc_start (rw_tasks s) idx) as [->|[Hn ->]]; [done|].
      rewrite Hn in Hd, He. done.
  - (* the loop ends *)
    rewrite Hpc in Hloop. split; simpl; try done.
    + lia.
    + rewrite Hctx. unfold failed, returned. simpl. by rewrite Hpc.
  - (* Wait returns *)
    rewrite Hpc in Hloop. split; simpl; try done.
    + unfold failed, returned. simpl. by rewrite orb_true_r.
    + intros r [= <-]. done.
  - (* the draw panics *)
    split; simpl; try done.
    + unfold running in Hr. destruct (rw_pc s); try done. destruct Hloop. lia. lia.
    + rewrite Hctx. unfold failed, returned. simpl. unfold running in Hr.
      destruct (rw_pc s); done.
    + intros v [= <-]. done.
  - (* the draw *)
    pose proof (rng_intn_range (rw_rng s) _ Hd) as Hrange. rewrite Hg in Hrange.
    simpl in Hrange.
    split; simpl; try done.
    + pose proof (pending_insert _ _ _ (TSleep (duration_mul r Millisecond)) Ht) as Hp.
      simpl in Hp. lia.
    + by rewrite length_insert.
    + rewrite Herr. by destruct (first_failure _).
    + eapply (lifecycle_update (rw_trace s) _ _ _ _ _
                [EDraw (Jitter idx) (DelayMillis input) r;
                 ESleep idx (duration_mul r Millisecond)]); [done|done|..].
      * intros i. rewrite !events_of_cons. simpl.
        destruct (Nat.eqb idx i); by rewrite <- ?app_assoc, ?app_nil_r.
      * intros r0 _. exists r. done.
    + rewrite Hdraws, Hg. by rewrite !draw_events_cons.
  - (* the call of the facade *)
    split; simpl; try done.
    + pose proof (pending_insert _ _ _ TRun Ht) as Hp. simpl in Hp. lia.
    + by rewrite length_insert.
    + rewrite Herr. by destruct (first_failure _).
    + eapply (lifecycle_update (rw_trace s) _ _ _ _ _
                [ECall idx (worker_args input stop)]); [done|done|..].
      * intros i. rewrite !events_of_cons. simpl. by destruct (Nat.eqb idx i).
      * intros r0 [Hr0 _]. by exists r0.
  - (* a failure reaches the group *)
    assert (rw_inv input stop g0
              (set_task idx (TDone (Some e)) (group_done (emit (EFail idx e)
                 {| rw_rng := rw_rng s; rw_trace := rw_trace s; rw_ctx := true;
                    rw_wg := rw_wg s;
                    rw_err := match rw_err s with Some x => Some x | None => Some e end;
                    rw_tasks := rw_tasks s; rw_pc := rw_pc s |})))) as Hgoal.
    { split; simpl; try done.
      + pose proof (pending_insert _ _ _ (TDone (Some e)) Ht) as Hp. simpl in Hp. lia.
      + by rewrite length_insert.
      + by rewrite Herr.
      + unfold failed, returned. simpl. by destruct (rw_err s).
      + intros r Hpc. unfold running in Hr. by rewrite Hpc in Hr.
      + eapply (lifecycle_update (rw_trace s) _ _ _ _ _ [EFail idx e]); [done|done|..].
        * intros i. rewrite !events_of_cons. simpl. by destruct (Nat.eqb idx i).
        * intros r0 Hr0. exists r0. split; [done|]. simpl. by rewrite <- ?app_assoc. }
    assert (rw_err s = None ∨ rw_ctx s = true) as Hc.
    { rewrite Hctx. unfold failed. destruct (rw_err s); [by right|by left]. }
    unfold group_fail. simpl. destruct (rw_err s) eqn:He; [|done].
    destruct Hc as [|Hc]; [done|]. rewrite <- Hc, <- He in Hgoal. exact Hgoal.
  - (* a nil result reaches the group *)
    split; simpl; try done.
    + pose proof (pending_insert _ _ _ (TDone None) Ht) as Hp. simpl in Hp. lia.
    + by rewrite length_insert.
    + intros r Hpc. unfold running in Hr. by rewrite Hpc in Hr.
    + eapply (lifecycle_update (rw_trace s) _ _ _ _ _ []); [done|done|..].
      * intros i. by destruct (Nat.eqb idx i); rewrite app_nil_r.
      * intros r0 Hr0. exists r0. split; [done|]. simpl. by rewrite ?app_nil_r.
  - (* a draw of the facade *)
    split; simpl; try done.
    + rewrite Herr. by destruct (first_failure _).
    + rewrite Hdraws, Hg. by rewrite !draw_events_cons.
  - (* the facade returns *)
    split; simpl; try done.
    + pose proof (pending_insert _ _ _ (TRet r) Ht) as Hp. simpl in Hp. lia.
    + by rewrite length_insert.
    + rewrite Herr. by destruct (first_failure _).
    + eapply (lifecycle_update (rw_trace s) _ _ _ _ _ [ERet idx r]); [done|done|..].
      * intros i. rewrite !events_of_cons. simpl. by destruct (Nat.eqb idx i).
      * intros r0 Hr0. by exists r0.
Qed.

(** The invariant holds in every reachable state. *)
Lemma rw_reachable_inv g0 s : rw_reachable input stop g0 s → rw_inv input stop g0 s.
Proof.
  intros [sched Hs].
  eapply (rw_exec_invariant input stop (rw_inv input stop g0)); [|apply rw_inv_start|done].
  intros a s1 s2. apply rw_inv_step.
Qed.

End RunWorkersInvariant.

(** ** Consequences of the invariant *)

Lemma first_failure_elem tr x : first_failure tr = Some x → ∃ i, EFail i x ∈ tr.
Proof.
  induction tr as [|e tr IH]; simpl; [done|].
  destruct (first_failure tr) as [y|].
  - intros [= ->]. destruct (IH eq_refl) as [i Hi]. exists i. by right.
  - destruct e; try done. intros [= ->]. eexists. left.
Qed.

Lemma elem_first_failure tr i x : EFail i x ∈ tr → is_Some (first_failure tr).
Proof.
  induction tr as [|e tr IH]; intros H; [by apply elem_of_nil in H|].
  apply elem_of_cons in H as [<-|H]; simpl.
  - destruct (first_failure tr); eauto.
  - destruct (IH H) as [y ->]. eauto.
Qed.

Lemma elem_events_of idx e tr : e ∈ events_of idx tr ↔ e ∈ tr ∧ belongs idx e = true.
Proof.
  unfold events_of. rewrite list_elem_of_In, <- in_rev, <- list_elem_of_In.
  rewrite list_elem_of_filter. tauto.
Qed.

Lemma jitter_of_draw_events idx tr : jitter_of idx tr = jitter_of idx (draw_events tr).
Proof.
  induction tr as [|e tr IH]; [done|]. rewrite draw_events_cons.
  destruct e as [|[i|i] n r| | | |]; simpl; try done. by rewrite IH.
Qed.

Lemma wrap64_small z : min_int64 ≤ z ≤ max_int64 → wrap64 z = z.
Proof.
  unfold wrap64, min_int64, max_int64. intros H. rewrite Z.mod_small; lia.
Qed.

Lemma wrap64_le z : 0 ≤ z → wrap64 z ≤ z.
Proof.
  unfold wrap64. intros H.
  pose proof (Z.mod_le (z + 2 ^ 63) (2 ^ 64) ltac:(lia) ltac:(lia)). lia.
Qed.

(** The time an instance sleeps is at most the jitter it drew, and so below
    the bound; it is the jitter itself unless the multiplication by
    [time.Millisecond] overflows. *)
Lemma sleep_time_bounds r n :
  0 ≤ r < n →
  0 ≤ sleep_time (duration_mul r Millisecond) ≤ r * Millisecond ∧
  r * Millisecond < n * Millisecond ∧
  (n ≤ 9223372036855 → sleep_time (duration_mul r Millisecond) = r * Millisecond).
Proof.
  intros Hr. unfold sleep_time, duration_mul, Millisecond.
  pose proof (wrap64_le (r * 1000000) ltac:(lia)). repeat split; try lia.
  intros Hn. rewrite wrap64_small; [lia|]. unfold min_int64, max_int64. lia.
Qed.

Section RunWorkersTheorems.

Context `{G : Generator}.
Variables (input : Input) (stop : chan_ref).

Lemma lifecycle_fail idx r t i x :
  EFail i x ∈ lifecycle input stop idx r t → i = idx ∧ t = Some (TDone (Some x)).
Proof.
  unfold lifecycle. destruct t as [[| | | |[e|]]|]; simpl; rewrite ?elem_of_cons, ?elem_of_nil;
    intros H; repeat destruct H as [H|H]; try done; by simplify_eq.
Qed.

Lemma lifecycle_call idx r t i a :
  ECall i a ∈ lifecycle input stop idx r t → a = worker_args input stop.
Proof.
  unfold lifecycle. destruct t as [[| | | |[e|]]|]; simpl; rewrite ?elem_of_cons, ?elem_of_nil;
    intros H; repeat destruct H as [H|H]; try done; by simplify_eq.
Qed.

Lemma lifecycle_done idx r res :
  ERet idx res ∈ lifecycle input stop idx r (Some (TDone res)) ∧
  (∀ e, res = Some e → EFail idx e ∈ lifecycle input stop idx r (Some (TDone res))).
Proof.
  unfold lifecycle. simpl. split.
  - do 3 right. left.
  - intros e ->. do 4 right. left.
Qed.

(** Every call of the facade gets the context of the group, the
    configuration, the empty instance id and the stop channel. *)
Lemma calls_share_context g s idx a :
  rw_reachable input stop g s → ECall idx a ∈ rw_trace s → a = worker_args input stop.
Proof.
  intros Hs Ha. apply rw_reachable_inv in Hs. destruct (inv_tasks _ _ _ _ Hs idx) as (r & _ & He).
  assert (ECall idx a ∈ events_of idx (rw_trace s)) as Hin.
  { apply elem_events_of. split; [done|]. simpl. apply Nat.eqb_refl. }
  rewrite He in Hin. by eapply lifecycle_call.
Qed.

(** A failure in the trace is the result of a finished task, and the
    other way round. *)
Lemma failure_of_task g s idx e :
  rw_reachable input stop g s →
  EFail idx e ∈ rw_trace s ↔ rw_tasks s !! idx = Some (TDone (Some e)).
Proof.
  intros Hs. apply rw_reachable_inv in Hs. destruct (inv_tasks _ _ _ _ Hs idx) as (r & _ & He).
  split.
  - intros Hin. assert (EFail idx e ∈ events_of idx (rw_trace s)) as Hin'.
    { apply elem_events_of. split; [done|]. simpl. apply Nat.eqb_refl. }
    rewrite He in Hin'. by apply lifecycle_fail in Hin' as [_ ?].
  - intros Ht. rewrite Ht in He.
    destruct (lifecycle_done idx r (Some e)) as [_ Hf]. specialize (Hf e eq_refl).
    rewrite <- He in Hf. by apply elem_events_of in Hf as [? _].
Qed.

End RunWorkersTheorems.

(** ** Runs that return *)

Section RunWorkersReturns.

Context `{G : Generator}.
Variables (input : Input) (stop : chan_ref).

(** The loop of [runWorkers] starts [m] more instances. *)
Lemma spawn_loop m : ∀ s (k : nat),
  rw_pc s = RSpawn (Z.of_nat k) →
  ((0 < m)%nat → Z.of_nat (k + m) ≤ Instances input) →
  ∃ s', rw_exec input stop (replicate m AMain) s = Some s' ∧
        rw_pc s' = RSpawn (Z.of_nat (k + m)) ∧
        rw_tasks s' = rw_tasks s ++ replicate m TStart ∧
        rw_err s' = rw_err s ∧ rw_wg s' = (rw_wg s + m)%nat.
Proof.
  induction m as [|m IH]; intros s k Hpc Hm.
  - exists s. rewrite !Nat.add_0_r, app_nil_r. done.
  - simpl. unfold rw_step. rewrite Hpc.
    destruct (Z.ltb_spec (Z.of_nat k) (Instances input)); [|lia].
    destruct (IH (set_pc (RSpawn (Z.of_nat k + 1)) (group_go s)) (S k))
      as (s' & He & Hp & Ht & Hr & Hw).
    { simpl. f_equal. lia. }
    { intros _. replace (S k + m)%nat with (k + S m)%nat by lia. apply Hm. lia. }
    exists s'. split; [done|]. split; [rewrite Hp; f_equal; lia|].
    split; [|split; [done|simpl in Hw; lia]]. rewrite Ht. simpl. by rewrite <- app_assoc.
Qed.

(** An instance that has not drawn yet runs to its end when the bound is
    positive; the group keeps the first error it was given. *)
Lemma run_one idx r s :
  0 < DelayMillis input → rw_pc s = RWait → rw_tasks s !! idx = Some TStart →
  ∃ s', rw_exec input stop (run_instance idx r) s = Some s' ∧
        rw_pc s' = RWait ∧
        rw_tasks s' = <[idx := TDone r]> (rw_tasks s) ∧
        rw_err s' = match rw_err s with Some x => Some x | None => r end ∧
        rw_wg s' = pred (rw_wg s).
Proof.
  intros Hd Hpc Ht. pose proof (lookup_lt_Some _ _ _ Ht) as Hlt.
  unfold run_instance. simpl. unfold rw_step at 1. rewrite Hpc, Ht.
  unfold rand_Intn. destruct (Z.leb_spec (DelayMillis input) 0); [lia|].
  destruct (rng_intn (rw_rng s) (DelayMillis input)) as [r0 g'].
  unfold rw_step at 1. simpl. rewrite Hpc, list_lookup_insert_eq by done.
  unfold rw_step at 1. simpl. rewrite Hpc, list_lookup_insert_eq by (by rewrite length_insert).
  unfold rw_step at 1. simpl.
  rewrite Hpc, list_lookup_insert_eq by (by rewrite !length_insert).
  eexists. split; [reflexivity|]. simpl.
  destruct r as [e|]; simpl.
  - unfold group_fail. simpl. rewrite !list_insert_insert_eq.
    destruct (rw_err s) eqn:He; simpl; rewrite ?list_insert_insert_eq, ?He; done.
  - rewrite !list_insert_insert_eq. by destruct (rw_err s).
Qed.

(** The instances [from], [from + 1], ... run to their end one after the
    other. *)
Lemma run_all rs : ∀ from s,
  0 < DelayMillis input → rw_pc s = RWait →
  (∀ k, (k < length rs)%nat → rw_tasks s !! (from + k)%nat = Some TStart) →
  ∃ s', rw_exec input stop (run_instances from rs) s = Some s' ∧
        rw_pc s' = RWait ∧
        length (rw_tasks s') = length (rw_tasks s) ∧
        (∀ j, rw_tasks s' !! j =
              if decide (from ≤ j < from + length rs)%nat
              then TDone <$> rs !! (j - from)%nat else rw_tasks s !! j) ∧
        rw_err s' = match rw_err s with Some x => Some x | None => first_error rs end ∧
        rw_wg s' = (rw_wg s - length rs)%nat.
Proof.
  induction rs as [|r rs IH]; intros from s Hd Hpc Hts.
  - exists s. simpl. repeat split; try done.
    + intros j. rewrite decide_False by lia. done.
    + by destruct (rw_err s).
    + lia.
  - change (run_instances from (r :: rs))
      with (run_instance from r ++ run_instances (S from) rs).
    rewrite rw_exec_app.
    destruct (run_one from r s Hd Hpc) as (s1 & -> & Hpc1 & Ht1 & He1 & Hw1).
    { specialize (Hts 0%nat). rewrite Nat.add_0_r in Hts. apply Hts. simpl. lia. }
    destruct (IH (S from) s1 Hd Hpc1) as (s' & He & Hpc' & Hlen & Ht' & Herr' & Hw').
    { intros k Hk. rewrite Ht1, list_lookup_insert_ne by lia.
      replace (S from + k)%nat with (from + S k)%nat by lia. apply Hts. simpl. lia. }
    exists s'. split; [done|]. split; [done|]. split.
    { rewrite Hlen, Ht1. by rewrite length_insert. }
    split; [|split].
    + intros j. rewrite Ht'. simpl length.
      destruct (decide (S from ≤ j < S from + length rs)%nat) as [Hj|Hj].
      * rewrite decide_True by lia.
        replace (j - from)%nat with (S (j - S from)) by lia. done.
      * rewrite Ht1. destruct (decide (j = from)) as [->|Hne].
        -- rewrite decide_True by lia. rewrite Nat.sub_diag. simpl.
           apply list_lookup_insert_eq. specialize (Hts 0%nat). rewrite Nat.add_0_r in Hts.
           eapply lookup_lt_Some. apply Hts. simpl. lia.
        -- rewrite decide_False by lia. by rewrite list_lookup_insert_ne.
    + rewrite Herr', He1. simpl. destruct (rw_err s); [done|]. by destruct r.
    + rewrite Hw', Hw1. simpl. lia.
Qed.

(** With a positive jitter bound, running the instances one after the
    other makes [runWorkers] return the first error of the results, for any
    results of the facade. *)
Lemma sequential_returns g rs :
  0 < DelayMillis input → Z.of_nat (length rs) = Z.max 0 (Instances input) →
  ∃ s, rw_exec input stop (sequential rs) (runWorkers_start g) = Some s ∧
       rw_pc s = RReturned (first_error rs) ∧ rw_tasks s = TDone <$> rs.
Proof.
  intros Hd Hlen. unfold sequential. rewrite rw_exec_app.
  destruct (spawn_loop (length rs) (runWorkers_start g) 0)
    as (s1 & -> & Hpc1 & Ht1 & He1 & Hw1); [done|simpl; lia|].
  simpl in Hpc1, Ht1, He1, Hw1. rewrite rw_exec_app.
  assert (rw_exec input stop [AMain] s1 = Some (set_pc RWait s1)) as ->.
  { simpl. unfold rw_step. rewrite Hpc1.
    destruct (Z.ltb_spec (Z.of_nat (length rs)) (Instances input)); [lia|done]. }
  rewrite rw_exec_app.
  destruct (run_all rs 0 (set_pc RWait s1) Hd eq_refl)
    as (s2 & -> & Hpc2 & Hlen2 & Ht2 & He2 & Hw2).
  { intros k Hk. simpl. rewrite Ht1. by apply lookup_replicate_2. }
  simpl in Hlen2, Ht2, He2, Hw2. rewrite He1 in He2. rewrite Hw1 in Hw2.
  assert (rw_tasks s2 = TDone <$> rs) as Hts.
  { apply list_eq. intros j. rewrite Ht2, list_lookup_fmap.
    destruct (decide _) as [Hj|Hj].
    - by rewrite Nat.sub_0_r.
    - rewrite Ht1, (proj1 (lookup_replicate_None _ _ _)) by lia. symmetry.
      rewrite (proj2 (lookup_ge_None rs j)); [done|lia]. }
  simpl. unfold rw_step. rewrite Hpc2. replace (rw_wg s2) with 0%nat by lia.
  eexists. split; [reflexivity|]. simpl. by rewrite He2.
Qed.

End RunWorkersReturns.

(** ** Particular configurations *)

Section RunWorkersCases.

Context `{G : Generator}.
Variables (input : Input) (stop : chan_ref).

(** Without instances nothing is started and nothing happens. *)
Lemma no_instances_inv g s :
  Instances input ≤ 0 → rw_reachable input stop g s →
  rw_tasks s = [] ∧ rw_trace s = [] ∧ rw_err s = None.
Proof.
  intros Hn [sched Hs].
  enough (rw_inv input stop g s ∧ rw_tasks s = [] ∧ rw_trace s = [] ∧ rw_err s = None)
    by tauto.
  revert Hs.
  apply (rw_exec_invariant input stop
           (λ s, rw_inv input stop g s ∧ rw_tasks s = [] ∧ rw_trace s = [] ∧ rw_err s = None));
    [|by split; [apply rw_inv_start|]].
  intros a s1 s2 (Hinv & Ht & Htr & He) Hstep.
  split; [by eapply rw_inv_step|].
  apply rw_step_moves in Hstep.
  destruct Hstep as [s0 i Hpc Hi|s0 i Hpc Hi|s0 Hpc Hwg0|s0 idx Hr Hl Hd
                    |s0 idx r g' Hr Hl Hd Hg|s0 idx d Hr Hl|s0 idx e Hr Hl|s0 idx Hr Hl
                    |s0 idx n r g' Hr Hl Hn' Hg|s0 idx r Hr Hl];
    try (rewrite Ht in Hl; discriminate); simpl; try done.
  pose proof (inv_loop _ _ _ _ Hinv) as Hloop. rewrite Hpc in Hloop. lia.
Qed.

(** With a bound that is not positive no instance gets past its draw. *)
Lemma nonpositive_bound_inv g s :
  DelayMillis input ≤ 0 → rw_reachable input stop g s →
  (∀ idx t, rw_tasks s !! idx = Some t → t = TStart) ∧ rw_trace s = [].
Proof.
  intros Hd [sched Hs]. revert Hs.
  apply (rw_exec_invariant input stop
           (λ s, (∀ idx t, rw_tasks s !! idx = Some t → t = TStart) ∧ rw_trace s = []));
    [|done].
  intros a s1 s2 (Ht & Htr) Hstep.
  apply rw_step_moves in Hstep.
  destruct Hstep as [s0 i Hpc Hi|s0 i Hpc Hi|s0 Hpc Hwg0|s0 idx Hr Hl Hd'
                    |s0 idx r g' Hr Hl Hd' Hg|s0 idx d Hr Hl|s0 idx e Hr Hl|s0 idx Hr Hl
                    |s0 idx n r g' Hr Hl Hn' Hg|s0 idx r Hr Hl];
    try (apply Ht in Hl; discriminate); simpl; try done; try lia.
  split; [|done]. intros idx t.
  destruct (lookup_snoc_start (rw_tasks s0) idx) as [->|[_ ->]]; [apply Ht|congruence].
Qed.

End RunWorkersCases.

(** * The orchestrator: runWorkers *)

Section Orchestrator.

Context `{G : Generator}.
Variables (input : Input) (stop : chan_ref).

(** C8.  With [Instances = 0], [runWorkers] returns nil after two moves of
    its own goroutine (the loop test and [g.Wait()]); no task is ever
    started and the trace stays empty, so the facade is never invoked. *)
Theorem runWorkers_no_instances g :
  Instances input = 0 →
  (∃ s, rw_exec input stop [AMain; AMain] (runWorkers_start g) = Some s ∧
        rw_pc s = RReturned None ∧ rw_trace s = []) ∧
  (∀ s, rw_reachable input stop g s →
        rw_tasks s = [] ∧ rw_trace s = [] ∧
        (∀ idx a, ECall idx a ∉ rw_trace s) ∧
        (∀ r, rw_pc s = RReturned r → r = None)).
Proof.
  intros Hn. split.
  - simpl. unfold rw_step. simpl. rewrite Hn. simpl. eauto.
  - intros s Hs. destruct (no_instances_inv input stop g s ltac:(lia) Hs) as (Ht & Htr & He).
    repeat split; try done.
    + intros idx a. rewrite Htr. apply not_elem_of_nil.
    + intros r Hpc. apply rw_reachable_inv in Hs.
      destruct (inv_ret _ _ _ _ Hs r Hpc) as [-> _]. done.
Qed.

(** C9.  With [DelayMillis <= 0] the draw of every instance panics: the
    move of an instance that has not drawn ends the process, no instance
    ever gets past its draw (nothing is drawn, no facade is called), and
    with at least one instance [runWorkers] never returns: its first
    instance can bring the process down right after it is started. *)
Theorem jitter_draw_needs_positive_bound g :
  DelayMillis input ≤ 0 →
  (∀ s, rw_reachable input stop g s →
        (∀ idx, running s → rw_tasks s !! idx = Some TStart →
                rw_step input stop (ATask idx) s = Some (set_pc (RCrashed IntnInvalid) s)) ∧
        (∀ idx t, rw_tasks s !! idx = Some t → t = TStart) ∧
        rw_trace s = [] ∧
        (1 ≤ Instances input → ∀ r, rw_pc s ≠ RReturned r)) ∧
  (1 ≤ Instances input →
   ∃ s, rw_exec input stop [AMain; ATask 0] (runWorkers_start g) = Some s ∧
        rw_pc s = RCrashed IntnInvalid).
Proof.
  intros Hd. split.
  - intros s Hs. destruct (nonpositive_bound_inv input stop g s Hd Hs) as [Ht Htr].
    repeat split; try done.
    + intros idx Hr Hl. apply rw_step_moves. by constructor.
    + intros Hn r Hpc. apply rw_reachable_inv in Hs.
      pose proof (inv_loop _ _ _ _ Hs) as Hloop. rewrite Hpc in Hloop.
      destruct (inv_ret _ _ _ _ Hs r Hpc) as [_ Hwg].
      rewrite (inv_wg _ _ _ _ Hs) in Hwg.
      destruct (rw_tasks s) as [|t ts] eqn:Hts; [simpl in Hloop; lia|].
      pose proof (pending_zero _ Hwg 0%nat t eq_refl) as Hdone.
      rewrite (Ht 0%nat t eq_refl) in Hdone. done.
  - intros Hn. simpl. unfold rw_step. simpl.
    destruct (Z.ltb_spec 0 (Instances input)); [|lia]. simpl.
    rewrite rand_Intn_nonpositive by done. eauto.
Qed.

(** The moves of [runWorkers]'s own goroutine neither draw nor log. *)
Lemma own_moves_keep_generator m : ∀ s s',
  rw_exec input stop (replicate m AMain) s = Some s' →
  rw_trace s' = rw_trace s ∧ rw_rng s' = rw_rng s.
Proof.
  induction m as [|m IH]; intros s s' H; simpl in H.
  - by injection H as <-.
  - destruct (rw_step input stop AMain s) as [s1|] eqn:Hstep; [|discriminate].
    destruct (IH _ _ H) as [-> ->].
    apply rw_step_moves in Hstep. by inversion Hstep; subst.
Qed.

(** C5, amended.  With a strictly positive [DelayMillis]: the loop of
    [runWorkers] runs to its end and launches exactly [Instances] tasks
    ([Instances] moves that start a task and the one that leaves the loop,
    none of which touches the generator); whatever the facades return, the
    run in which the instances go one after the other gives each of them
    its draw, its sleep, its call of the facade and its return, in this
    order.  In every state of every run no goroutine has panicked, and the
    events of every instance are, in this order: the draw of a jitter [r]
    with [0 <= r < DelayMillis], the sleep for [r * time.Millisecond]
    (computed on int64), the call of the facade with the context of the
    group, the configuration, the empty id and the stop channel, and its
    return.  The sleep lasts at most [r] milliseconds, so less than the
    bound, and exactly [r] milliseconds unless the product overflows.  The
    jitter comes from the shared generator: the draws of a run are what the
    generator yields, one after the other, from the state [runWorkers] got
    it in; the move of an instance that has not drawn is always enabled and
    takes [rand.Intn(DelayMillis)] from the generator as it stands, which it
    advances, then sleeps; and the move of an instance that sleeps is always
    enabled and calls the facade. *)
Theorem runWorkers_staggered_start g :
  0 < DelayMillis input →
  (∃ s, rw_exec input stop (replicate (Z.to_nat (Instances input)) AMain ++ [AMain])
          (runWorkers_start g) = Some s ∧
        rw_pc s = RWait ∧
        rw_tasks s = replicate (Z.to_nat (Instances input)) TStart ∧
        rw_trace s = [] ∧ rw_rng s = g) ∧
  (∀ rs, Z.of_nat (length rs) = Z.max 0 (Instances input) →
     ∃ s, rw_exec input stop (sequential rs) (runWorkers_start g) = Some s ∧
          rw_tasks s = TDone <$> rs ∧
          ∀ idx res, rs !! idx = Some res →
            ∃ r, 0 ≤ r < DelayMillis input ∧
                 events_of idx (rw_trace s)
                 = [EDraw (Jitter idx) (DelayMillis input) r;
                    ESleep idx (duration_mul r Millisecond);
                    ECall idx (worker_args input stop);
                    ERet idx res]
                   ++ match res with Some e => [EFail idx e] | None => [] end) ∧
  (∀ s, rw_reachable input stop g s →
     (∀ v, rw_pc s ≠ RCrashed v) ∧
     Z.of_nat (length (rw_tasks s)) ≤ Z.max 0 (Instances input) ∧
     (rw_pc s = RWait ∨ returned s = true →
      Z.of_nat (length (rw_tasks s)) = Z.max 0 (Instances input)) ∧
     (∀ idx, ∃ r,
        events_of idx (rw_trace s) = lifecycle input stop idx r (rw_tasks s !! idx) ∧
        drawn input r (rw_tasks s !! idx) ∧
        (0 ≤ r < DelayMillis input →
         0 ≤ sleep_time (duration_mul r Millisecond) ≤ r * Millisecond ∧
         r * Millisecond < DelayMillis input * Millisecond ∧
         (DelayMillis input ≤ 9223372036855 →
          sleep_time (duration_mul r Millisecond) = r * Millisecond))) ∧
     replay g (draws (rw_trace s)) = (rw_rng s, draw_events (rw_trace s)) ∧
     (∀ idx, running s → rw_tasks s !! idx = Some TStart →
        let r := (rng_intn (rw_rng s) (DelayMillis input)).1 in
        0 ≤ r < DelayMillis input ∧
        ∃ s', rw_step input stop (ATask idx) s = Some s' ∧
              rw_rng s' = (rng_intn (rw_rng s) (DelayMillis input)).2 ∧
              rw_trace s' = ESleep idx (duration_mul r Millisecond)
                              :: EDraw (Jitter idx) (DelayMillis input) r :: rw_trace s ∧
              rw_tasks s' = <[idx := TSleep (duration_mul r Millisecond)]> (rw_tasks s) ∧
              rw_tasks s' !! idx = Some (TSleep (duration_mul r Millisecond)) ∧
              rw_pc s' = rw_pc s) ∧
     (∀ idx d, running s → rw_tasks s !! idx = Some (TSleep d) →
        ∃ s', rw_step input stop (ATask idx) s = Some s' ∧
              rw_rng s' = rw_rng s ∧
              rw_trace s' = ECall idx (worker_args input stop) :: rw_trace s ∧
              rw_tasks s' = <[idx := TRun]> (rw_tasks s) ∧
              rw_pc s' = rw_pc s)).
Proof.
  intros Hd. split; [|split].
  - destruct (spawn_loop input stop (Z.to_nat (Instances input)) (runWorkers_start g) 0)
      as (s1 & He & Hpc & Ht & _ & _); [done|lia|].
    destruct (own_moves_keep_generator _ _ _ He) as [Htr Hg].
    exists (set_pc RWait s1). split; [|done].
    rewrite rw_exec_app, He. simpl. unfold rw_step. rewrite Hpc.
    destruct (Z.ltb_spec (Z.of_nat (0 + Z.to_nat (Instances input))) (Instances input));
      [lia|done].
  - intros rs Hlen.
    destruct (sequential_returns input stop g rs Hd Hlen) as (s & He & _ & Ht).
    exists s. split; [done|]. split; [done|]. intros idx res Hres.
    pose proof (rw_reachable_inv input stop g s (ex_intro _ _ He)) as Hinv.
    destruct (inv_tasks _ _ _ _ Hinv idx) as (r & Hdr & Hev).
    rewrite Ht, list_lookup_fmap, Hres in Hdr, Hev. simpl in Hdr, Hev.
    exists r. split; [done|]. rewrite Hev. by destruct res.
  - intros s Hs. pose proof (rw_reachable_inv input stop g s Hs) as Hinv.
    pose proof (inv_loop _ _ _ _ Hinv) as Hloop.
    split; [|split; [|split; [|split; [|split; [|split]]]]].
    + intros v Hpc. destruct (inv_crash _ _ _ _ Hinv v Hpc). lia.
    + destruct (rw_pc s); lia.
    + unfold returned. intros [Hpc|Hpc]; destruct (rw_pc s); (done || lia).
    + intros idx. destruct (inv_tasks _ _ _ _ Hinv idx) as (r & Hdr & He).
      exists r. split; [done|]. split; [done|]. apply sleep_time_bounds.
    + apply (inv_draws _ _ _ _ Hinv).
    + intros idx Hr Hl.
      pose proof (rng_intn_range (rw_rng s) (DelayMillis input) Hd) as Hrange.
      destruct (rng_intn (rw_rng s) (DelayMillis input)) as [r g'] eqn:Hg.
      simpl in *. split; [done|]. eexists. split.
      * apply rw_step_moves. by eapply mv_draw.
      * simpl. repeat split. apply list_lookup_insert_eq. by eapply lookup_lt_Some.
    + intros idx d Hr Hl. eexists. split.
      * apply rw_step_moves. by eapply mv_call.
      * done.
Qed.

(** C6, amended.  Two runs from the same generator state (the same seed)
    with the same configuration in which the generator is asked in the same
    order (by the same instances, with the same bounds) see the same draws:
    the generator ends in the same state and every instance gets the same
    jitter. *)
Theorem jitter_determined_by_draw_order g s1 s2 :
  rw_reachable input stop g s1 → rw_reachable input stop g s2 →
  draws (rw_trace s1) = draws (rw_trace s2) →
  rw_rng s1 = rw_rng s2 ∧
  draw_events (rw_trace s1) = draw_events (rw_trace s2) ∧
  ∀ idx, jitter_of idx (rw_trace s1) = jitter_of idx (rw_trace s2).
Proof.
  intros H1 H2 Hdraws.
  pose proof (inv_draws _ _ _ _ (rw_reachable_inv input stop g s1 H1)) as E1.
  pose proof (inv_draws _ _ _ _ (rw_reachable_inv input stop g s2 H2)) as E2.
  rewrite Hdraws, E2 in E1. injection E1 as Hg He.
  repeat split; try done.
  intros idx. by rewrite (jitter_of_draw_events idx (rw_trace s1)),
    (jitter_of_draw_events idx (rw_trace s2)), He.
Qed.

(** C1.  In every state of [runWorkers]: once a failure has reached the
    group its context is cancelled, and that context is the one every call
    of the facade was given.  When [runWorkers] has returned [r]: all
    [Instances] tasks were started and each of them has finished, after its
    facade returned; [r] is the first failure that reached the group; it is
    nil exactly when every task returned nil; and when one task alone
    returned an error, [r] is that error.  With a positive jitter bound
    such a return exists whatever the facades return: the run in which the
    instances go one after the other returns the first error of the
    results. *)
Theorem runWorkers_first_error g :
  (∀ s, rw_reachable input stop g s →
     (is_Some (first_failure (rw_trace s)) → rw_ctx s = true) ∧
     (∀ idx a, ECall idx a ∈ rw_trace s → call_ctx a = CtxGroup) ∧
     (∀ r, rw_pc s = RReturned r →
        r = first_failure (rw_trace s) ∧
        Z.of_nat (length (rw_tasks s)) = Z.max 0 (Instances input) ∧
        (∀ idx t, rw_tasks s !! idx = Some t →
                  ∃ res, t = TDone res ∧ ERet idx res ∈ rw_trace s) ∧
        (r = None ↔ ∀ idx res, rw_tasks s !! idx = Some (TDone res) → res = None) ∧
        (∀ e, r = Some e → ∃ idx, rw_tasks s !! idx = Some (TDone (Some e))) ∧
        (∀ idx e,
           rw_tasks s !! idx = Some (TDone (Some e)) →
           (∀ j res, j ≠ idx → rw_tasks s !! j = Some (TDone res) → res = None) →
           r = Some e))) ∧
  (0 < DelayMillis input →
   ∀ rs, Z.of_nat (length rs) = Z.max 0 (Instances input) →
     ∃ s, rw_exec input stop (sequential rs) (runWorkers_start g) = Some s ∧
          rw_pc s = RReturned (first_error rs) ∧ rw_tasks s = TDone <$> rs).
Proof.
  split; [|intros Hd rs Hlen; by apply sequential_returns].
  intros s Hs. pose proof (rw_reachable_inv input stop g s Hs) as Hinv.
  split; [|split].
  - intros [x Hx]. rewrite (inv_ctx _ _ _ _ Hinv). unfold failed.
    by rewrite (inv_err _ _ _ _ Hinv), Hx.
  - intros idx a Ha. by rewrite (calls_share_context input stop g s idx a Hs Ha).
  - intros r Hpc. destruct (inv_ret _ _ _ _ Hinv r Hpc) as [Hr Hwg].
    pose proof (inv_loop _ _ _ _ Hinv) as Hloop. rewrite Hpc in Hloop.
    rewrite (inv_err _ _ _ _ Hinv) in Hr. rewrite (inv_wg _ _ _ _ Hinv) in Hwg.
    assert (∀ e, r = Some e → ∃ idx, rw_tasks s !! idx = Some (TDone (Some e))) as Hsome.
    { intros e He. rewrite He in Hr. symmetry in Hr.
      destruct (first_failure_elem _ _ Hr) as [i Hi]. exists i.
      by apply (failure_of_task input stop g s i e Hs). }
    assert (∀ idx e, rw_tasks s !! idx = Some (TDone (Some e)) → is_Some r) as Hfail.
    { intros idx e Ht. rewrite Hr. apply (elem_first_failure _ idx e).
      by apply (failure_of_task input stop g s idx e Hs). }
    split; [done|]. split; [done|]. split; [|split; [|split]].
    + intros idx t Ht. pose proof (pending_zero _ Hwg idx t Ht) as Hdone.
      destruct t as [| | | |res]; try done. exists res. split; [done|].
      destruct (inv_tasks _ _ _ _ Hinv idx) as (r0 & _ & He). rewrite Ht in He.
      destruct (lifecycle_done input stop idx r0 res) as [Hin _].
      rewrite <- He in Hin. by apply elem_events_of in Hin as [? _].
    + split.
      * intros -> idx [e|] Ht; [|done]. by destruct (Hfail idx e Ht).
      * intros Hall. destruct r as [e|]; [|done].
        destruct (Hsome e eq_refl) as [idx Ht]. by specialize (Hall idx _ Ht).
    + done.
    + intros idx e Ht Hothers. destruct (Hfail idx e Ht) as [e' ->].
      destruct (Hsome e' eq_refl) as [j Hj].
      destruct (decide (j = idx)) as [->|Hne]; [congruence|].
      by specialize (Hothers j _ Hne Hj).
Qed.

End Orchestrator.

(** * The process: Main *)

Section MainFacts.

Context `{G : Generator}.
Variables (getenv : string) (now : Z) (args : list (string * flag.value)).

Lemma rw_reachable_step input stop g a w w' :
  rw_reachable input stop g w → rw_step input stop a w = Some w' →
  rw_reachable input stop g w'.
Proof.
  intros [sched Hs] Ha. exists (sched ++ [a]). rewrite rw_exec_app, Hs. simpl. by rewrite Ha.
Qed.

Lemma main_exec_app l1 l2 s :
  main_exec getenv now args (l1 ++ l2) s =
  match main_exec getenv now args l1 s with
  | Some s' => main_exec getenv now args l2 s'
  | None => None
  end.
Proof.
  revert s. induction l1 as [|a l1 IH]; intros s; simpl; [done|].
  destruct (main_step getenv now args a s); [apply IH|done].
Qed.

Lemma main_exec_invariant (P : main_state → Prop) :
  (∀ a s s', P s → main_step getenv now args a s = Some s' → P s') →
  ∀ sched s s', P s → main_exec getenv now args sched s = Some s' → P s'.
Proof.
  intros Hstep. induction sched as [|a sched IH]; intros s s' Hs H; simpl in H.
  - by inversion H; subst.
  - destruct (main_step getenv now args a s) as [s1|] eqn:Ha; [|discriminate]. eauto.
Qed.

Lemma main_inv_start : main_inv getenv now args process_start.
Proof. split; simpl; [|done]. intros _. split; [done|]. intros b Hb. by apply elem_of_nil in Hb. Qed.

Lemma main_inv_load input w w' a s :
  main_inv getenv now args s → m_pc s = MLoad input w →
  rw_step input stopChan a w = Some w' →
  main_inv getenv now args (main_set_pc (MLoad input w') s).
Proof.
  intros [Hzero Hpc] Hp Hstep. rewrite Hp in Hpc. split; [done|]. simpl.
  destruct Hpc as ((p & Hparse & Hreach) & Hrest). split; [|done].
  exists p. split; [done|]. by eapply rw_reachable_step.
Qed.

Lemma main_inv_step a s s' :
  main_inv getenv now args s → main_step getenv now args a s = Some s' →
  main_inv getenv now args s'.
Proof.
  intros Hinv Hstep. pose proof Hinv as [Hzero Hpc]. unfold main_step in Hstep.
  destruct (main_ended s) eqn:Hend; [discriminate|].
  destruct a as [|idx|idx n|idx r|r|k|].
  1-4: destruct (m_pc s) as [p|input p|input|input w|r'|v|c] eqn:Hp; try discriminate.
  3-6: destruct (rw_step input stopChan _ w) as [w'|] eqn:Hw; [|discriminate];
       injection Hstep as <-; by eapply main_inv_load.
  - (* parseFlags *)
    destruct Hpc as (-> & Hb & Hc & Hs).
    destruct (parseFlags getenv now args (init boot)) as [[input|v|c] p'] eqn:Hparse;
      injection Hstep as <-; split; simpl; eauto.
  - (* the mode is chosen and the interrupt goroutine started *)
    destruct Hpc as (Hparse & Hb & Hc & Hs).
    destruct (IsBenchmark input) eqn:Hmode; injection Hstep as <-; split; simpl.
    + intros Hz. destruct (Hzero Hz) as [Hsig _]. split; [done|].
      rewrite Hb. intros b Hin. apply list_elem_of_singleton in Hin. by subst.
    + rewrite Hb. simpl. eauto 10.
    + intros Hz. destruct (Hzero Hz) as [Hsig _]. split; [done|].
      rewrite Hb. intros b Hin. apply list_elem_of_singleton in Hin. by subst.
    + rewrite Hb. simpl. split; [|eauto 10].
      exists p. split; [done|]. by exists [].
  - (* benchmark.Run returns *)
    destruct (m_pc s) as [p|input p|input|input w|r'|v|c] eqn:Hp; try discriminate.
    injection Hstep as <-. destruct Hpc as ((p & Hparse) & Hmode & Hs & bp & Hb & Hc).
    split; simpl; [done|]. eauto 10.
  - (* the interrupt goroutine *)
    destruct (m_bridges s !! k) as [[d [| |]]|] eqn:Hk; try discriminate.
    + destruct (m_sig s) eqn:Hsig; [|discriminate]. injection Hstep as <-.
      assert (m_interrupts s ≠ 0%nat) as Hnz.
      { intros Hz. destruct (Hzero Hz) as [? _]. congruence. }
      split; simpl; [done|].
      destruct (m_pc s) as [p|input p|input|input w|r'|v|c] eqn:Hp;
        try (destruct Hpc as (_ & Hb & _); rewrite Hb in Hk; discriminate).
      * destruct Hpc as (Hparse & Hmode & Hs & bp & Hb & Hc). rewrite Hb in Hk |- *.
        destruct k; [|done]. simpl in Hk. simplify_eq. simpl. eauto 10.
      * destruct Hpc as (Hparse & Hmode & Hs & bp & Hb & Hc). rewrite Hb in Hk |- *.
        destruct k; [|done]. simpl in Hk. simplify_eq. simpl. eauto 10.
      * unfold main_ended in Hend. by rewrite Hp in Hend.
    + injection Hstep as <-.
      assert (m_interrupts s ≠ 0%nat) as Hnz.
      { intros Hz. destruct (Hzero Hz) as [_ Hw].
        specialize (Hw _ (list_elem_of_lookup_2 _ _ _ Hk)). done. }
      destruct (m_pc s) as [p|input p|input|input w|r'|v|c] eqn:Hp;
        try (destruct Hpc as (_ & Hb & _); rewrite Hb in Hk; discriminate).
      * destruct Hpc as (Hparse & Hmode & Hs & bp & Hb & Hc). rewrite Hb in Hk.
        destruct k; [|done]. simpl in Hk. simplify_eq.
        split; simpl; [done|]. rewrite Hp, Hb. simpl. eauto 10.
      * destruct Hpc as (Hparse & Hmode & Hs & bp & Hb & Hc). rewrite Hb in Hk.
        destruct k; [|done]. simpl in Hk. simplify_eq.
        split; simpl; [done|]. rewrite Hp, Hb. simpl. eauto 10.
      * unfold main_ended in Hend. by rewrite Hp in Hend.
  - (* an interrupt *)
    injection Hstep as <-. split; simpl; done.
Qed.

Lemma main_reachable_inv s : main_reachable getenv now args s → main_inv getenv now args s.
Proof.
  intros [sched Hs].
  eapply (main_exec_invariant (main_inv getenv now args)); [|apply main_inv_start|done].
  intros a s1 s2. apply main_inv_step.
Qed.

End MainFacts.

Ltac break_up :=
  repeat match goal with
         | H : _ ∧ _ |- _ => destruct H
         | H : ∃ _, _ |- _ => destruct H
         end.

Section Process.

Context `{G : Generator}.
Variables (getenv : string) (now : Z) (args : list (string * flag.value)).

(** Handling an interrupt leaves the program point of [Main], and with it
    the state of [runWorkers], alone. *)
Lemma interrupt_moves_keep_pc a s s' :
  a = AInterrupt ∨ (∃ k, a = ABridge k) →
  main_step getenv now args a s = Some s' → m_pc s' = m_pc s.
Proof.
  intros Ha Hstep. unfold main_step in Hstep.
  destruct (main_ended s); [discriminate|].
  destruct Ha as [->|[k ->]].
  - by injection Hstep as <-.
  - destruct (m_bridges s !! k) as [[d [| |]]|]; try discriminate.
    + destruct (m_sig s); [|discriminate]. by injection Hstep as <-.
    + injection Hstep as <-. by destruct d.
Qed.

(** The first interrupt, once the goroutine that waits for it has run:
    the context is cancelled or the stop channel closed, by discipline. *)
Lemma first_interrupt s d :
  main_ended s = false → m_bridges s = [{| b_kind := d; b_pc := BWaiting |}] →
  ∃ s', main_exec getenv now args [AInterrupt; ABridge 0; ABridge 0] s = Some s' ∧
        m_pc s' = m_pc s ∧
        match d with
        | HardCancel => m_bench_ctx s' = true ∧ m_stop s' = m_stop s
        | GracefulStop => m_stop s' = true ∧ m_bench_ctx s' = m_bench_ctx s
        end.
Proof.
  intros Hend Hb. simpl. unfold main_step at 1. rewrite Hend.
  unfold main_step at 1.
  change (main_ended (deliver s)) with (main_ended s). rewrite Hend. simpl. rewrite Hb. simpl.
  unfold main_step at 1.
  change (main_ended (set_bridge 0 _ (set_sig false (deliver s)))) with (main_ended s).
  rewrite Hend. simpl. rewrite Hb. simpl.
  eexists. split; [reflexivity|]. by destruct d.
Qed.

(** C2.  The interrupt goroutine is started by the move of [Main] that
    enters the mode, and by no other: when [parseFlags] returns, the first
    two moves of [Main] lead, in benchmark mode, into [benchmark.Run] with
    one goroutine that waits to cancel the benchmark context, and otherwise
    into [runWorkers] (no task started yet, the context of its group not
    cancelled) with one goroutine that waits to close the stop channel; the
    first interrupt then lets that goroutine run to its end, which cancels
    the benchmark context and leaves the stop channel open in benchmark
    mode, and closes the stop channel and leaves the benchmark context and
    the state of [runWorkers] alone in load generation.  In every state of
    a process run there is at most one interrupt goroutine, the benchmark
    context and the stop channel are never both triggered, and handling an
    interrupt never touches the state of [runWorkers] (so not the context
    of its group).  While [benchmark.Run] runs the goroutine is the one
    that cancels the benchmark context, which is cancelled exactly when
    that goroutine is done, and the stop channel stays open; while
    [runWorkers] runs it is the one that closes the stop channel, closed
    exactly when that goroutine is done, the benchmark context is never
    cancelled, and the context of the group is cancelled only by a failure
    or by the return of [g.Wait()].  In either mode the first interrupt
    lets the goroutine run to its end. *)
Theorem interrupt_discipline_by_mode :
  (∀ input p, parseFlags getenv now args (init boot) = (Returned input, p) →
     ∃ s1 s2,
       main_exec getenv now args [AMain; AMain] process_start = Some s1 ∧
       main_exec getenv now args [AInterrupt; ABridge 0; ABridge 0] s1 = Some s2 ∧
       m_interrupts s1 = 0%nat ∧ m_bench_ctx s1 = false ∧ m_stop s1 = false ∧
       m_interrupts s2 = 1%nat ∧ m_pc s2 = m_pc s1 ∧
       if IsBenchmark input
       then m_pc s1 = MBench input ∧
            m_bridges s1 = [{| b_kind := HardCancel; b_pc := BWaiting |}] ∧
            m_bridges s2 = [{| b_kind := HardCancel; b_pc := BDone |}] ∧
            m_bench_ctx s2 = true ∧ m_stop s2 = false
       else m_pc s1 = MLoad input (runWorkers_start (p_rng p)) ∧
            m_bridges s1 = [{| b_kind := GracefulStop; b_pc := BWaiting |}] ∧
            m_bridges s2 = [{| b_kind := GracefulStop; b_pc := BDone |}] ∧
            m_stop s2 = true ∧ m_bench_ctx s2 = false) ∧
  (∀ s, main_reachable getenv now args s →
     (length (m_bridges s) ≤ 1)%nat ∧
     m_bench_ctx s && m_stop s = false ∧
     (∀ a s', a = AInterrupt ∨ (∃ k, a = ABridge k) →
              main_step getenv now args a s = Some s' → m_pc s' = m_pc s) ∧
     match m_pc s with
     | MBench input =>
         IsBenchmark input = true ∧ m_stop s = false ∧
         (∃ bp, m_bridges s = [{| b_kind := HardCancel; b_pc := bp |}] ∧
                m_bench_ctx s = bridge_done bp) ∧
         (m_interrupts s = 0%nat →
          ∃ s', main_exec getenv now args [AInterrupt; ABridge 0; ABridge 0] s = Some s' ∧
                m_pc s' = m_pc s ∧ m_bench_ctx s' = true ∧ m_stop s' = false)
     | MLoad input w =>
         IsBenchmark input = false ∧ m_bench_ctx s = false ∧
         (∃ bp, m_bridges s = [{| b_kind := GracefulStop; b_pc := bp |}] ∧
                m_stop s = bridge_done bp) ∧
         rw_ctx w = failed w || returned w ∧
         (main_ended s = false → m_interrupts s = 0%nat →
          ∃ s', main_exec getenv now args [AInterrupt; ABridge 0; ABridge 0] s = Some s' ∧
                m_pc s' = MLoad input w ∧ m_stop s' = true ∧ m_bench_ctx s' = false)
     | MReturned _ =>
         m_stop s = false ∧ ∃ bp, m_bridges s = [{| b_kind := HardCancel; b_pc := bp |}]
     | _ => m_bridges s = [] ∧ m_bench_ctx s = false ∧ m_stop s = false
     end).
Proof.
  split.
  { intros input p Hparse.
    assert (main_step getenv now args AMain process_start =
            Some (main_set_pc (MParsed input p) process_start)) as E0.
    { unfold main_step, process_start, Main_start, main_ended. cbn [m_pc].
      by rewrite Hparse. }
    assert (main_exec getenv now args [AMain; AMain] process_start =
            Some (if IsBenchmark input
                  then main_set_pc (MBench input)
                         (main_go HardCancel (main_set_pc (MParsed input p) process_start))
                  else main_set_pc (MLoad input (runWorkers_start (p_rng p)))
                         (main_go GracefulStop (main_set_pc (MParsed input p) process_start))))
      as E1.
    { cbn [main_exec]. rewrite E0. unfold main_step, main_ended. cbn [m_pc main_set_pc].
      by destruct (IsBenchmark input). }
    destruct (IsBenchmark input).
    - eexists _, _. split; [exact E1|]. split; [reflexivity|]. by repeat split.
    - eexists _, _. split; [exact E1|]. split; [reflexivity|]. by repeat split. }
  intros s Hs. destruct (main_reachable_inv getenv now args s Hs) as [Hzero Hpc].
  split; [|split; [|split]].
  - destruct (m_pc s); break_up;
      repeat match goal with H : m_bridges s = _ |- _ => rewrite H end; simpl; lia.
  - destruct (m_pc s); break_up;
      repeat match goal with
             | H : m_bench_ctx s = _ |- _ => rewrite H
             | H : m_stop s = _ |- _ => rewrite H
             end;
      simpl; by rewrite ?andb_false_r.
  - intros a s'. apply interrupt_moves_keep_pc.
  - destruct (m_pc s) as [p|input p|input|input w|r'|v|c] eqn:Hp; try tauto.
    + destruct Hpc as (Hparse & Hmode & Hstop & bp & Hb & Hc).
      split; [done|]. split; [done|]. split; [eauto|].
      intros Hz. destruct (Hzero Hz) as [_ Hw].
      assert (bp = BWaiting) as ->.
      { apply (Hw {| b_kind := HardCancel; b_pc := bp |}). rewrite Hb. left. }
      destruct (first_interrupt s HardCancel) as (s' & He & Hp' & Hc' & Hs').
      { unfold main_ended. by rewrite Hp. }
      { done. }
      exists s'. rewrite Hp', Hp. split; [done|]. split; [done|]. split; [done|]. congruence.
    + destruct Hpc as ((p & Hparse & Hreach) & Hmode & Hctx & bp & Hb & Hc).
      split; [done|]. split; [done|]. split; [eauto|].
      split; [apply (inv_ctx _ _ _ _ (rw_reachable_inv _ _ _ _ Hreach))|].
      intros Hend Hz. destruct (Hzero Hz) as [_ Hw].
      assert (bp = BWaiting) as ->.
      { apply (Hw {| b_kind := GracefulStop; b_pc := bp |}). rewrite Hb. left. }
      destruct (first_interrupt s GracefulStop Hend Hb) as (s' & He & Hp' & Hs' & Hc').
      exists s'. rewrite Hp', Hp. split; [done|]. split; [done|]. split; [done|]. congruence.
Qed.

End Process.

(** * The configuration: parseFlags *)

Section Configuration.

Context `{G : Generator}.
Variables (getenv : string) (now : Z) (args : list (string * flag.value)).

(** C3.  [parseFlags] panics exactly when the command line is one the
    flag package accepts, asks for benchmark mode, and carries a look-back
    value that [strconv.Atoi] rejects; in load-generation mode it returns a
    configuration whatever that value is.  When it panics the process has
    started nothing: no interrupt goroutine, no benchmark, no task.  (A
    command line that the flag package refuses ends the process inside
    [flag.Parse], with exit status 2: that is not [parseFlags]'s check.) *)
Theorem parseFlags_panics_iff_benchmark_days_not_integer :
  (∀ p, (∃ v p', parseFlags getenv now args p = (Panicked v, p')) ↔
        (∃ fs, flag.Parse args (flags_defined getenv now) = Some fs ∧
               flag.bool_at fs "bench" = true ∧
               strconv.Atoi (flag.string_at fs "rd") = None)) ∧
  (∀ p fs, flag.Parse args (flags_defined getenv now) = Some fs →
           flag.bool_at fs "bench" = false →
           ∃ input p', parseFlags getenv now args p = (Returned input, p') ∧
                       IsBenchmark input = false) ∧
  (∀ v p', parseFlags getenv now args (init boot) = (Panicked v, p') →
           ∀ s, main_reachable getenv now args s →
                m_bridges s = [] ∧ (m_pc s = MStart (init boot) ∨ m_pc s = MCrashed v)).
Proof.
  split; [|split].
  - intros p. pose proof (parseFlags_spec getenv now args p) as Hspec. split.
    + intros (v & p' & Hp).
      destruct (flag.Parse args (flags_defined getenv now)) as [fs|]; [|congruence].
      destruct Hspec as (o & Ho & Hcase). exists fs. split; [done|].
      rewrite Hp in Ho. injection Ho as <- _.
      destruct (flag.bool_at fs "bench").
      * destruct (strconv.Atoi _); [|done]. by destruct Hcase as (input & ? & _).
      * by destruct Hcase as (input & ? & _).
    + intros (fs & Hparse & Hbench & Hdays). rewrite Hparse in Hspec.
      destruct Hspec as (o & Ho & Hcase). rewrite Hbench, Hdays in Hcase. subst o. eauto.
  - intros p fs Hparse Hbench. pose proof (parseFlags_spec getenv now args p) as Hspec.
    rewrite Hparse in Hspec. destruct Hspec as (o & Ho & Hcase). rewrite Hbench in Hcase.
    destruct Hcase as (input & -> & Hmode & _). eauto.
  - intros v p' Hp s Hs. destruct (main_reachable_inv getenv now args s Hs) as [_ Hpc].
    destruct (m_pc s); break_up; try congruence.
    + split; [done|]. left. congruence.
    + split; [done|]. right. congruence.
Qed.

(** C4, amended.  In load-generation mode [parseFlags] never fails on a
    command line the flag package accepts, and the configuration it returns
    has the minimum as supplied and the maximum raised to the minimum when
    it was supplied below it, unchanged otherwise.  In benchmark mode the
    span limits are not copied into the configuration: both are zero.  So
    every returned configuration has [SpanMinLimit <= SpanMaxLimit]. *)
Theorem span_limits_clamped_in_load_mode p :
  (∀ fs, flag.Parse args (flags_defined getenv now) = Some fs →
         flag.bool_at fs "bench" = false →
         ∃ input p', parseFlags getenv now args p = (Returned input, p') ∧
                     SpanMinLimit input = flag.int_at fs "sm" ∧
                     SpanMaxLimit input =
                       (if flag.int_at fs "sx" <? flag.int_at fs "sm"
                        then flag.int_at fs "sm" else flag.int_at fs "sx")) ∧
  (∀ input p', parseFlags getenv now args p = (Returned input, p') →
               SpanMinLimit input ≤ SpanMaxLimit input ∧
               (IsBenchmark input = true → SpanMinLimit input = 0 ∧ SpanMaxLimit input = 0)).
Proof.
  pose proof (parseFlags_spec getenv now args p) as Hspec. split.
  - intros fs Hparse Hbench. rewrite Hparse in Hspec.
    destruct Hspec as (o & Ho & Hcase). rewrite Hbench in Hcase.
    destruct Hcase as (input & -> & _ & _ & Hmin & Hmax). eauto.
  - intros input p' Hp.
    destruct (flag.Parse args (flags_defined getenv now)) as [fs|]; [|congruence].
    destruct Hspec as (o & Ho & Hcase). rewrite Hp in Ho. injection Ho as <- _.
    destruct (flag.bool_at fs "bench").
    + destruct (strconv.Atoi _); [|done].
      destruct Hcase as (input' & [= <-] & _ & _ & -> & ->). done.
    + destruct Hcase as (input' & [= <-] & Hmode & _ & -> & ->).
      split; [|congruence]. destruct (Z.ltb_spec (flag.int_at fs "sx") (flag.int_at fs "sm")); lia.
Qed.

(** C7, amended.  [parseFlags] seeds the generator once, after
    [flag.Parse] has accepted the command line, with the seed on the command
    line or else the current time, and the generator is then in the state
    of that seed whatever it was before; when [flag.Parse] refuses the
    command line nothing is seeded.  The process seeds it one more time,
    earlier: [init] seeds it with 1000.  [runWorkers] never seeds. *)
Theorem generator_seeded_by_init_then_parseFlags :
  (∀ p o p', parseFlags getenv now args p = (o, p') →
             match o with
             | Exited _ => p' = p
             | _ => p_trace p' = ESeed (seed_of now args) :: p_trace p ∧
                    p_rng p' = rng_seed (seed_of now args)
             end) ∧
  seeds (p_trace (init boot)) = [1000] ∧
  (∀ o p', parseFlags getenv now args (init boot) = (o, p') →
           seeds (p_trace p') =
           match o with Exited _ => [1000] | _ => [1000; seed_of now args] end) ∧
  (∀ input stop g s, rw_reachable input stop g s → seeds (rw_trace s) = []).
Proof.
  assert (∀ p o p', parseFlags getenv now args p = (o, p') →
             match o with
             | Exited _ => p' = p
             | _ => p_trace p' = ESeed (seed_of now args) :: p_trace p ∧
                    p_rng p' = rng_seed (seed_of now args)
             end) as Hseed.
  { intros p o p' Hp. pose proof (parseFlags_spec getenv now args p) as Hspec.
    destruct (flag.Parse args (flags_defined getenv now)) as [fs|] eqn:Hparse.
    - destruct Hspec as (o' & Ho & Hcase). rewrite Hp in Ho. injection Ho as <- ->.
      rewrite (Parse_seed _ _ _ _ Hparse).
      destruct (flag.bool_at fs "bench").
      + destruct (strconv.Atoi _); [destruct Hcase as (input & -> & _)|subst o]; done.
      + by destruct Hcase as (input & -> & _).
    - rewrite Hp in Hspec. by injection Hspec as -> ->. }
  split; [done|]. split; [done|]. split.
  - intros o p' Hp. specialize (Hseed _ _ _ Hp).
    destruct o; [destruct Hseed as [-> _]..|subst p']; done.
  - intros input stop g s Hs. apply (inv_seeds _ _ _ _ (rw_reachable_inv _ _ _ _ Hs)).
Qed.

End Configuration.

(** C10.  With ELASTIC_APM_SERVICE_NAME unset (or empty), every
    configuration [parseFlags] returns has the service name ["hey-service"],
    whatever the command line says: the pointer that [flag.String] returns is
    dereferenced before [flag.Parse] runs. *)
Theorem service_name_flag_is_ignored `{G : Generator} now args p input p' :
  parseFlags "" now args p = (Returned input, p') → ServiceName input = "hey-service".
Proof.
  intros Hp. pose proof (parseFlags_spec "" now args p) as Hspec.
  destruct (flag.Parse args (flags_defined "" now)) as [fs|]; [|congruence].
  destruct Hspec as (o & Ho & Hcase). rewrite Hp in Ho. injection Ho as <- _.
  destruct (flag.bool_at fs "bench").
  - destruct (strconv.Atoi _); [|done]. by destruct Hcase as (input' & [= <-] & _ & -> & _).
  - by destruct Hcase as (input' & [= <-] & _ & -> & _).
Qed.

(** * Two orders of the same draws *)

(** Whatever the generator, when the first two instances draw in one order
    or in the other they swap the first two values of the seeded sequence. *)
Lemma jitter_swaps_with_order `{G : Generator} input stop g :
  2 ≤ Instances input → 0 < DelayMillis input →
  let d1 := rng_intn g (DelayMillis input) in
  let d2 := rng_intn d1.2 (DelayMillis input) in
  ∃ s1 s2,
    rw_exec input stop [AMain; AMain; ATask 0; ATask 1] (runWorkers_start g) = Some s1 ∧
    rw_exec input stop [AMain; AMain; ATask 1; ATask 0] (runWorkers_start g) = Some s2 ∧
    jitter_of 0 (rw_trace s1) = Some d1.1 ∧ jitter_of 1 (rw_trace s1) = Some d2.1 ∧
    jitter_of 0 (rw_trace s2) = Some d2.1 ∧ jitter_of 1 (rw_trace s2) = Some d1.1.
Proof.
  intros Hn Hd. simpl. unfold rw_step. simpl.
  destruct (Z.ltb_spec 0 (Instances input)); [|lia]. simpl.
  destruct (Z.ltb_spec (0 + 1) (Instances input)); [|lia]. simpl.
  unfold rand_Intn. destruct (Z.leb_spec (DelayMillis input) 0); [lia|].
  destruct (rng_intn g (DelayMillis input)) as [r1 g1]. simpl.
  destruct (Z.leb_spec (DelayMillis input) 0); [lia|].
  destruct (rng_intn g1 (DelayMillis input)) as [r2 g2]. simpl.
  eexists _, _. repeat split; reflexivity.
Qed.

(** * More on the configuration *)

Lemma Parse_value args (fs0 fs : gmap string flag.value) k d :
  fs0 !! k = Some d → flag.Parse args fs0 = Some fs →
  ∃ v, fs !! k = Some v ∧ flag.same_kind d v = true ∧ v = default d (supplied k args).
Proof.
  intros Hk Hp. destruct (Parse_kind _ _ _ k d Hp Hk) as (v & Hv & Hkind).
  exists v. split; [done|]. split; [done|].
  pose proof (Parse_lookup _ _ _ k Hp) as Hl. rewrite Hv, Hk in Hl.
  destruct (supplied k args); simpl; congruence.
Qed.

Lemma Parse_bool_flag args (fs0 fs : gmap string flag.value) k d :
  fs0 !! k = Some (flag.VBool d) → flag.Parse args fs0 = Some fs →
  flag.bool_at fs k = bool_flag k d args.
Proof.
  intros Hk Hp. destruct (Parse_value _ _ _ _ _ Hk Hp) as (v & Hv & Hkind & ->).
  unfold flag.bool_at, bool_flag. rewrite Hv.
  destruct (supplied k args) as [[]|]; simpl in *; done.
Qed.

Lemma Parse_int_flag args (fs0 fs : gmap string flag.value) k d :
  fs0 !! k = Some (flag.VInt d) → flag.Parse args fs0 = Some fs →
  flag.int_at fs k = int_flag k d args.
Proof.
  intros Hk Hp. destruct (Parse_value _ _ _ _ _ Hk Hp) as (v & Hv & Hkind & ->).
  unfold flag.int_at, int_flag. rewrite Hv.
  destruct (supplied k args) as [[]|]; simpl in *; done.
Qed.

Lemma Parse_duration_flag args (fs0 fs : gmap string flag.value) k d :
  fs0 !! k = Some (flag.VDuration d) → flag.Parse args fs0 = Some fs →
  flag.duration_at fs k = duration_flag k d args.
Proof.
  intros Hk Hp. destruct (Parse_value _ _ _ _ _ Hk Hp) as (v & Hv & Hkind & ->).
  unfold flag.duration_at, duration_flag. rewrite Hv.
  destruct (supplied k args) as [[]|]; simpl in *; done.
Qed.

Lemma Parse_string_flag args (fs0 fs : gmap string flag.value) k d :
  fs0 !! k = Some (flag.VString d) → flag.Parse args fs0 = Some fs →
  flag.string_at fs k = string_flag k d args.
Proof.
  intros Hk Hp. destruct (Parse_value _ _ _ _ _ Hk Hp) as (v & Hv & Hkind & ->).
  unfold flag.string_at, string_flag. rewrite Hv.
  destruct (supplied k args) as [[]|]; simpl in *; done.
Qed.

(** The defaults of the flags [parseFlags] defines. *)
Lemma flags_defined_defaults getenv now :
  let fs := flags_defined getenv now in
  fs !! "run" = Some (flag.VDuration (30 * Second)) ∧
  fs !! "flush" = Some (flag.VDuration (10 * Second)) ∧
  fs !! "instances" = Some (flag.VInt 1) ∧
  fs !! "delay" = Some (flag.VInt 1000) ∧
  fs !! "apm-secret" = Some (flag.VString "") ∧
  fs !! "api-key" = Some (flag.VString "") ∧
  fs !! "apm-url" = Some (flag.VString "http://localhost:8200") ∧
  fs !! "es-url" = Some (flag.VString "http://localhost:9200") ∧
  fs !! "es-auth" = Some (flag.VString "") ∧
  fs !! "apm-es-url" = Some (flag.VString "http://localhost:9200") ∧
  fs !! "apm-es-auth" = Some (flag.VString "") ∧
  fs !! "bench" = Some (flag.VBool false) ∧
  fs !! "rd" = Some (flag.VString "7") ∧
  fs !! "e" = Some (flag.VInt max_int64) ∧
  fs !! "ef" = Some (flag.VDuration (1 * Nanosecond)) ∧
  fs !! "ex" = Some (flag.VInt 10) ∧
  fs !! "em" = Some (flag.VInt 0) ∧
  fs !! "sx" = Some (flag.VInt 10) ∧
  fs !! "sm" = Some (flag.VInt 1) ∧
  fs !! "t" = Some (flag.VInt max_int64) ∧
  fs !! "tf" = Some (flag.VDuration (1 * Nanosecond)) ∧
  fs !! "service-name" =
    (if String.eqb getenv "" then Some (flag.VString "hey-service") else None).
Proof.
  unfold flags_defined. destruct (String.eqb getenv ""); vm_compute; repeat split.
Qed.

Section ConfigurationFields.

Context `{G : Generator}.

(** Every field of what [parseFlags] returns, by mode. *)
Lemma parseFlags_fields getenv now args p :
  match flag.Parse args (flags_defined getenv now) with
  | None => parseFlags getenv now args p = (Exited 2, p)
  | Some fs =>
      ∃ o, parseFlags getenv now args p = (o, rand_Seed (flag.int64_at fs "seed") p) ∧
        if flag.bool_at fs "bench" then
          match strconv.Atoi (flag.string_at fs "rd") with
          | None => o = Panicked (AtoiError (flag.string_at fs "rd"))
          | Some _ =>
              ∃ input, o = Returned input ∧ common_fields getenv fs input ∧
                RegressionDays input = flag.string_at fs "rd" ∧
                RegressionMargin input = flag.float64_at fs "rm" ∧
                TransactionFrequency input = 0 ∧ TransactionLimit input = 0 ∧
                SpanMaxLimit input = 0 ∧ SpanMinLimit input = 0 ∧
                ErrorFrequency input = 0 ∧ ErrorLimit input = 0 ∧
                ErrorFrameMaxLimit input = 0 ∧ ErrorFrameMinLimit input = 0
          end
        else
          ∃ input, o = Returned input ∧ common_fields getenv fs input ∧
            RegressionDays input = "" ∧ RegressionMargin input = 0%float ∧
            TransactionFrequency input = flag.duration_at fs "tf" ∧
            TransactionLimit input = flag.int_at fs "t" ∧
            ErrorFrequency input = flag.duration_at fs "ef" ∧
            ErrorLimit input = flag.int_at fs "e" ∧
            ErrorFrameMaxLimit input = flag.int_at fs "ex" ∧
            ErrorFrameMinLimit input = flag.int_at fs "em"
  end.
Proof.
  unfold parseFlags, flags_defined, common_fields, service_name.
  destruct (String.eqb getenv "") eqn:Henv;
    cbv beta iota zeta delta [flag.define foldl app fst snd];
    (destruct (flag.Parse args _) as [fs|]; [|reflexivity]);
    destruct (flag.bool_at fs "bench") eqn:Hb;
    try destruct (strconv.Atoi _);
    (eexists; split; [reflexivity|]); try reflexivity;
    (eexists; split; [reflexivity|]);
    cbn [IsBenchmark ApmServerUrl ApmServerSecret APIKey ElasticsearchUrl ElasticsearchAuth
         ApmElasticsearchUrl ApmElasticsearchAuth ServiceName RunTimeout FlushTimeout
         Instances DelayMillis RegressionDays RegressionMargin TransactionFrequency
         TransactionLimit SpanMaxLimit SpanMinLimit ErrorFrequency ErrorLimit
         ErrorFrameMaxLimit ErrorFrameMinLimit];
    repeat split; try done;
    unfold flag.string_at; rewrite lookup_insert_eq; reflexivity.
Qed.

End ConfigurationFields.

(** A flag that was not defined is refused wherever it stands on the command
    line. *)
Lemma Parse_undefined args : ∀ (fs : gmap string flag.value) name v,
  fs !! name = None → (name, v) ∈ args → flag.Parse args fs = None.
Proof.
  induction args as [|[n w] rest IH]; intros fs name v Hname Hin.
  - by apply elem_of_nil in Hin.
  - simpl. destruct (fs !! n) as [old|] eqn:Hn; [|done].
    destruct (flag.same_kind old w && flag.fits w); [|done].
    apply elem_of_cons in Hin as [Heq|Hin].
    + injection Heq as <- <-. congruence.
    + apply (IH _ name v); [|done]. rewrite lookup_insert_ne; [done|]. congruence.
Qed.

Section ConfigurationExtras.

Context `{G : Generator}.
Variables (getenv : string) (now : Z) (args : list (string * flag.value)).

(** What a returned configuration holds, in terms of the flag set that
    [flag.Parse] left. *)
Lemma parseFlags_returned p input p' :
  parseFlags getenv now args p = (Returned input, p') →
  ∃ fs, flag.Parse args (flags_defined getenv now) = Some fs ∧
        common_fields getenv fs input ∧
        if flag.bool_at fs "bench" then
          is_Some (strconv.Atoi (flag.string_at fs "rd")) ∧
          RegressionDays input = flag.string_at fs "rd" ∧
          RegressionMargin input = flag.float64_at fs "rm" ∧
          TransactionFrequency input = 0 ∧ TransactionLimit input = 0 ∧
          SpanMaxLimit input = 0 ∧ SpanMinLimit input = 0 ∧
          ErrorFrequency input = 0 ∧ ErrorLimit input = 0 ∧
          ErrorFrameMaxLimit input = 0 ∧ ErrorFrameMinLimit input = 0
        else
          RegressionDays input = "" ∧ RegressionMargin input = 0%float ∧
          TransactionFrequency input = flag.duration_at fs "tf" ∧
          TransactionLimit input = flag.int_at fs "t" ∧
          ErrorFrequency input = flag.duration_at fs "ef" ∧
          ErrorLimit input = flag.int_at fs "e" ∧
          ErrorFrameMaxLimit input = flag.int_at fs "ex" ∧
          ErrorFrameMinLimit input = flag.int_at fs "em".
Proof.
  intros Hp. pose proof (parseFlags_fields getenv now args p) as Hspec.
  destruct (flag.Parse args (flags_defined getenv now)) as [fs|]; [|congruence].
  destruct Hspec as (o & Ho & Hcase). rewrite Hp in Ho. injection Ho as <- _.
  exists fs. split; [done|].
  destruct (flag.bool_at fs "bench").
  - destruct (strconv.Atoi _) as [z|]; [|done].
    destruct Hcase as (input' & [= <-] & Hcommon & Hrest). eauto.
  - destruct Hcase as (input' & [= <-] & Hcommon & Hrest). eauto.
Qed.

(** X1.  The mode, the connection settings, the time-outs, the number of
    instances and the jitter bound of a returned configuration are what the
    command line says last for the flag of that field, or the default of the
    flag when the command line does not mention it. *)
Theorem returned_fields_follow_command_line p input p' :
  parseFlags getenv now args p = (Returned input, p') →
  IsBenchmark input = bool_flag "bench" false args ∧
  ApmServerUrl input = string_flag "apm-url" "http://localhost:8200" args ∧
  ApmServerSecret input = string_flag "apm-secret" "" args ∧
  APIKey input = string_flag "api-key" "" args ∧
  ElasticsearchUrl input = string_flag "es-url" "http://localhost:9200" args ∧
  ElasticsearchAuth input = string_flag "es-auth" "" args ∧
  ApmElasticsearchUrl input = string_flag "apm-es-url" "http://localhost:9200" args ∧
  ApmElasticsearchAuth input = string_flag "apm-es-auth" "" args ∧
  RunTimeout input = duration_flag "run" (30 * Second) args ∧
  FlushTimeout input = duration_flag "flush" (10 * Second) args ∧
  Instances input = int_flag "instances" 1 args ∧
  DelayMillis input = int_flag "delay" 1000 args.
Proof.
  intros Hp. destruct (parseFlags_returned p input p' Hp) as (fs & Hparse & Hcommon & _).
  destruct Hcommon as (-> & -> & -> & -> & -> & -> & -> & -> & _ & -> & -> & -> & ->).
  pose proof (flags_defined_defaults getenv now) as Hdef. simpl in Hdef.
  destruct Hdef as (Hrun & Hflush & Hinst & Hdelay & Hsecret & Hkey & Hurl & Hes & Hesauth
                    & Hapmes & Hapmesauth & Hbench & _).
  repeat split;
    first [ by eapply Parse_bool_flag | by eapply Parse_string_flag
          | by eapply Parse_duration_flag | by eapply Parse_int_flag ].
Qed.

(** X2.  When ELASTIC_APM_SERVICE_NAME is set, a returned configuration has
    it as service name, and [-service-name] is not a flag at all: a command
    line that mentions it is refused by [flag.Parse], the process exits with
    status 2 and the generator is left as it was. *)
Theorem service_name_from_environment p :
  getenv ≠ "" →
  (∀ input p', parseFlags getenv now args p = (Returned input, p') →
               ServiceName input = getenv) ∧
  (∀ v, ("service-name", v) ∈ args → parseFlags getenv now args p = (Exited 2, p)).
Proof.
  intros Henv. assert (String.eqb getenv "" = false) as Heqb.
  { by destruct (String.eqb_spec getenv ""). }
  split.
  - intros input p' Hp.
    destruct (parseFlags_returned p input p' Hp) as (fs & _ & Hcommon & _).
    destruct Hcommon as (_ & _ & _ & _ & _ & _ & _ & _ & -> & _).
    unfold service_name. by rewrite Heqb.
  - intros v Hin. pose proof (parseFlags_fields getenv now args p) as Hspec.
    rewrite (Parse_undefined args (flags_defined getenv now) "service-name" v) in Hspec;
      [done| |done].
    pose proof (flags_defined_defaults getenv now) as Hdef. simpl in Hdef.
    rewrite Heqb in Hdef. apply Hdef.
Qed.

(** X3.  In load-generation mode the payload options come back as the
    command line gives them (or as their defaults), the span maximum raised
    to the span minimum when it is below it.  The error-frame limits get no
    such treatment: a maximum below the minimum is returned as it is. *)
Theorem payload_options_in_load_mode p input p' :
  parseFlags getenv now args p = (Returned input, p') → IsBenchmark input = false →
  TransactionFrequency input = duration_flag "tf" (1 * Nanosecond) args ∧
  TransactionLimit input = int_flag "t" max_int64 args ∧
  SpanMinLimit input = int_flag "sm" 1 args ∧
  SpanMaxLimit input = Z.max (int_flag "sx" 10 args) (int_flag "sm" 1 args) ∧
  ErrorFrequency input = duration_flag "ef" (1 * Nanosecond) args ∧
  ErrorLimit input = int_flag "e" max_int64 args ∧
  ErrorFrameMaxLimit input = int_flag "ex" 10 args ∧
  ErrorFrameMinLimit input = int_flag "em" 0 args.
Proof.
  intros Hp Hmode.
  destruct (parseFlags_returned p input p' Hp) as (fs & Hparse & Hcommon & Hcase).
  destruct Hcommon as (Hbench & _). rewrite Hmode in Hbench. rewrite <- Hbench in Hcase.
  destruct Hcase as (_ & _ & -> & -> & -> & -> & -> & ->).
  pose proof (parseFlags_spec getenv now args p) as Hspec. rewrite Hparse in Hspec.
  destruct Hspec as (o & Ho & Hspan). rewrite Hp in Ho. injection Ho as <- _.
  rewrite <- Hbench in Hspan. destruct Hspan as (input' & [= <-] & _ & _ & -> & ->).
  pose proof (flags_defined_defaults getenv now) as Hdef. simpl in Hdef.
  destruct Hdef as (_ & _ & _ & _ & _ & _ & _ & _ & _ & _ & _ & _ & _ & He & Hef & Hex & Hem
                    & Hsx & Hsm & Ht & Htf & _).
  rewrite (Parse_int_flag _ _ _ _ _ Hsx Hparse), (Parse_int_flag _ _ _ _ _ Hsm Hparse).
  repeat split;
    try first [ by eapply Parse_duration_flag | by eapply Parse_int_flag ].
  destruct (Z.ltb_spec (int_flag "sx" 10 args) (int_flag "sm" 1 args)); lia.
Qed.

(** X4.  A configuration returned in benchmark mode carries the look-back
    value of the command line (default "7"), which [strconv.Atoi] accepts, and
    none of the payload options: they are all zero.  A configuration returned
    in load-generation mode carries no regression setting: the look-back is
    empty and the margin zero, whatever [-rd] and [-rm] say. *)
Theorem regression_settings_by_mode p input p' :
  parseFlags getenv now args p = (Returned input, p') →
  if IsBenchmark input then
    RegressionDays input = string_flag "rd" "7" args ∧
    is_Some (strconv.Atoi (RegressionDays input)) ∧
    TransactionFrequency input = 0 ∧ TransactionLimit input = 0 ∧
    SpanMaxLimit input = 0 ∧ SpanMinLimit input = 0 ∧
    ErrorFrequency input = 0 ∧ ErrorLimit input = 0 ∧
    ErrorFrameMaxLimit input = 0 ∧ ErrorFrameMinLimit input = 0
  else RegressionDays input = "" ∧ RegressionMargin input = 0%float.
Proof.
  intros Hp.
  destruct (parseFlags_returned p input p' Hp) as (fs & Hparse & Hcommon & Hcase).
  destruct Hcommon as (-> & _).
  destruct (flag.bool_at fs "bench").
  - destruct Hcase as (Hatoi & Hrd & _ & Hrest). rewrite Hrd.
    pose proof (flags_defined_defaults getenv now) as Hdef. simpl in Hdef.
    destruct Hdef as (_ & _ & _ & _ & _ & _ & _ & _ & _ & _ & _ & _ & Hd & _).
    split; [by eapply Parse_string_flag|]. split; [done|]. exact Hrest.
  - destruct Hcase as (-> & -> & _). done.
Qed.

End ConfigurationExtras.

(** * More on the orchestrator *)

Lemma pending_positive ts : ∀ idx t,
  ts !! idx = Some t → is_done t = false → (1 ≤ pending ts)%nat.
Proof.
  induction ts as [|t0 ts IH]; intros idx t Ht Hd; [done|].
  destruct idx as [|idx]; simpl in *.
  - inversion Ht; subst. rewrite Hd. lia.
  - specialize (IH idx t Ht Hd). lia.
Qed.

Lemma pending_all_done ts :
  (∀ idx t, ts !! idx = Some t → is_done t = true) → pending ts = 0%nat.
Proof.
  induction ts as [|t0 ts IH]; intros H; [done|]. simpl.
  rewrite (H 0%nat t0 eq_refl). simpl. apply IH. intros idx t Ht. apply (H (S idx) t Ht).
Qed.

Section OrchestratorExtras.

Context `{G : Generator}.
Variables (input : Input) (stop : chan_ref).

(** X5.  A count of instances that is zero or negative starts nothing: the
    loop is left at its first test, [g.Wait()] returns at once, and
    [runWorkers] returns nil; no state of the run has a task or an event. *)
Theorem runWorkers_nonpositive_instances g :
  Instances input ≤ 0 →
  (∃ s, rw_exec input stop [AMain; AMain] (runWorkers_start g) = Some s ∧
        rw_pc s = RReturned None ∧ rw_trace s = [] ∧ rw_tasks s = []) ∧
  (∀ s, rw_reachable input stop g s →
        rw_tasks s = [] ∧ rw_trace s = [] ∧
        ∀ r, rw_pc s = RReturned r → r = None).
Proof.
  intros Hn. split.
  - simpl. unfold rw_step. simpl.
    destruct (Z.ltb_spec 0 (Instances input)); [lia|]. simpl. eauto.
  - intros s Hs. destruct (no_instances_inv input stop g s Hn Hs) as (Ht & Htr & He).
    repeat split; try done.
    intros r Hpc. apply rw_reachable_inv in Hs.
    destruct (inv_ret _ _ _ _ Hs r Hpc) as [-> _]. done.
Qed.

(** X6.  The sleep is computed on int64: when the jitter drawn is between
    9223372036855 and 18446744073709 milliseconds, the product with
    [time.Millisecond] wraps around to a negative duration, and
    [time.Sleep] returns at once: the instance does not wait at all. *)
Theorem jitter_sleep_wraps_around s idx r g' :
  running s → rw_tasks s !! idx = Some TStart →
  rng_intn (rw_rng s) (DelayMillis input) = (r, g') →
  9223372036855 ≤ r ≤ 18446744073709 → r < DelayMillis input →
  ∃ s' d, rw_step input stop (ATask idx) s = Some s' ∧
          rw_tasks s' !! idx = Some (TSleep d) ∧
          d = r * Millisecond - 2 ^ 64 ∧ d < 0 ∧ sleep_time d = 0.
Proof.
  intros Hr Ht Hg Hrange Hd.
  exists (set_task idx (TSleep (duration_mul r Millisecond))
            (emit (ESleep idx (duration_mul r Millisecond))
               (emit (EDraw (Jitter idx) (DelayMillis input) r) (set_rng g' s)))),
         (duration_mul r Millisecond).
  split; [apply rw_step_moves; apply mv_draw; (done || lia)|].
  split; [simpl; apply list_lookup_insert_eq; by eapply lookup_lt_Some|].
  assert (duration_mul r Millisecond = r * Millisecond - 2 ^ 64) as Hwrap.
  { unfold duration_mul, wrap64, Millisecond.
    replace (r * 1000000 + 2 ^ 63) with (r * 1000000 - 2 ^ 63 + 1 * 2 ^ 64) by lia.
    rewrite Z.mod_add by lia. rewrite Z.mod_small; lia. }
  split; [done|]. rewrite Hwrap. unfold sleep_time, Millisecond. lia.
Qed.

(** X7.  The WaitGroup counter of the group is the number of tasks that
    have not finished: it is at least one whenever a task is about to call
    [wg.Done()], so it never goes below zero, and it is zero exactly when
    every task that was started has finished. *)
Theorem wait_group_counts_unfinished_tasks g s :
  rw_reachable input stop g s →
  rw_wg s = pending (rw_tasks s) ∧
  (∀ idx r, rw_tasks s !! idx = Some (TRet r) → (1 ≤ rw_wg s)%nat) ∧
  (rw_wg s = 0%nat ↔ ∀ idx t, rw_tasks s !! idx = Some t → ∃ r, t = TDone r).
Proof.
  intros Hs. pose proof (inv_wg _ _ _ _ (rw_reachable_inv input stop g s Hs)) as Hwg.
  split; [done|]. split.
  - intros idx r Ht. rewrite Hwg. by eapply pending_positive.
  - rewrite Hwg. split.
    + intros Hz idx t Ht. pose proof (pending_zero _ Hz idx t Ht) as Hd.
      destruct t; try done. eauto.
    + intros Hall. apply pending_all_done. intros idx t Ht.
      by destruct (Hall idx t Ht) as [r ->].
Qed.

(** X8.  No instance calls the facade twice: an instance that has not got
    past its sleep has made no call, and any other has made exactly one, with
    the context of the group, the configuration, the empty id and the stop
    channel.  A failed instance is not started again. *)
Theorem facade_called_at_most_once g s idx :
  rw_reachable input stop g s →
  calls idx (rw_trace s) =
  match rw_tasks s !! idx with
  | Some TRun | Some (TRet _) | Some (TDone _) => [worker_args input stop]
  | _ => []
  end.
Proof.
  intros Hs. destruct (inv_tasks _ _ _ _ (rw_reachable_inv input stop g s Hs) idx)
    as (r & _ & He).
  unfold calls. rewrite He. unfold lifecycle.
  destruct (rw_tasks s !! idx) as [[| | | |[e|]]|]; reflexivity.
Qed.

End OrchestratorExtras.

(** * The first draw, and runs that can always end *)

Section OrchestratorProgress.

Context `{G : Generator}.
Variables (input : Input) (stop : chan_ref).

Lemma replay_last g ds :
  list.last (replay g ds).2 =
  match list.last ds with
  | Some (who, n) => Some (EDraw who n (rng_intn g n).1)
  | None => None
  end.
Proof.
  induction ds as [|[who n] older IH]; [done|].
  simpl replay. destruct (replay g older) as [g1 evs] eqn:Hr. simpl in IH.
  destruct (rng_intn g1 n) as [r g2] eqn:Hd. simpl.
  rewrite !list.last_cons, IH. destruct older as [|d older']; simpl.
  - simpl in Hr. injection Hr as <- <-. by rewrite Hd.
  - destruct (list.last (d :: older')) as [[who' n']|] eqn:Hl; [done|].
    by rewrite list.last_cons in Hl; destruct (list.last older').
Qed.

(** The oldest draw of a run is the jitter of some instance; while nothing
    has been drawn no task has left its start. *)
Lemma first_draw_is_jitter g s :
  rw_reachable input stop g s →
  match list.last (draws (rw_trace s)) with
  | Some (who, n) => (∃ idx, who = Jitter idx) ∧ n = DelayMillis input
  | None => ∀ idx t, rw_tasks s !! idx = Some t → t = TStart
  end.
Proof.
  intros [sched Hs]. revert Hs.
  apply (rw_exec_invariant input stop
           (λ s, match list.last (draws (rw_trace s)) with
                 | Some (who, n) => (∃ idx, who = Jitter idx) ∧ n = DelayMillis input
                 | None => ∀ idx t, rw_tasks s !! idx = Some t → t = TStart
                 end)); [|done].
  intros a s1 s2 Hinv Hstep. apply rw_step_moves in Hstep.
  destruct Hstep as [s0 i Hpc Hi|s0 i Hpc Hi|s0 Hpc Hwg0|s0 idx Hr Hl Hd'
                    |s0 idx r g' Hr Hl Hd' Hg|s0 idx d Hr Hl|s0 idx e Hr Hl|s0 idx Hr Hl
                    |s0 idx n r g' Hr Hl Hn' Hg|s0 idx r Hr Hl];
    unfold group_fail; simpl; try (destruct (rw_err s0); simpl);
    try done; revert Hinv; rewrite ?list.last_cons;
    (destruct (list.last (draws (rw_trace s0))) as [[who n0]|]; simpl; intros Hinv;
     [exact Hinv|]);
    try (by specialize (Hinv _ _ Hl)).
  all: try (intros idx t Ht;
            destruct (lookup_snoc_start (rw_tasks s0) idx) as [Heq|[_ Heq]];
            rewrite Heq in Ht; [by apply Hinv in Ht|congruence]).
  all: split; eauto.
Qed.

(** X9.  Whatever the schedule, the first value the generator gives after
    the call goes to the jitter of some instance: the oldest draw of a run is
    a jitter draw with bound [DelayMillis], and its value is the first value
    of the generator for that bound; until it is made no task has left its
    start. *)
Theorem first_draw_is_the_first_jitter g s :
  rw_reachable input stop g s →
  match list.last (draw_events (rw_trace s)) with
  | Some e => ∃ idx, e = EDraw (Jitter idx) (DelayMillis input)
                            (rng_intn g (DelayMillis input)).1
  | None => ∀ idx t, rw_tasks s !! idx = Some t → t = TStart
  end.
Proof.
  intros Hs. pose proof (first_draw_is_jitter g s Hs) as Hfirst.
  pose proof (inv_draws _ _ _ _ (rw_reachable_inv input stop g s Hs)) as Hreplay.
  pose proof (replay_last g (draws (rw_trace s))) as Hlast.
  rewrite Hreplay in Hlast. simpl in Hlast. rewrite Hlast.
  destruct (list.last (draws (rw_trace s))) as [[who n]|]; [|done].
  destruct Hfirst as [[idx ->] ->]. eauto.
Qed.

Lemma rw_reachable_exec g sched s s' :
  rw_reachable input stop g s → rw_exec input stop sched s = Some s' →
  rw_reachable input stop g s'.
Proof.
  intros [sched0 Hs] He. exists (sched0 ++ sched). by rewrite rw_exec_app, Hs.
Qed.

(** A task is taken from where it is to its end. *)
Lemma finish_one idx t s :
  0 < DelayMillis input → rw_pc s = RWait → rw_tasks s !! idx = Some t →
  ∃ s', rw_exec input stop (finish_task idx t) s = Some s' ∧
        rw_pc s' = RWait ∧ ∃ r, rw_tasks s' = <[idx := TDone r]> (rw_tasks s).
Proof.
  intros Hd Hpc Ht. pose proof (lookup_lt_Some _ _ _ Ht) as Hlt.
  destruct t as [|d| |r|r]; simpl.
  - unfold rw_step at 1. rewrite Hpc, Ht.
    unfold rand_Intn. destruct (Z.leb_spec (DelayMillis input) 0); [lia|].
    destruct (rng_intn (rw_rng s) (DelayMillis input)) as [r0 g'].
    unfold rw_step at 1. simpl. rewrite Hpc, list_lookup_insert_eq by done.
    unfold rw_step at 1. simpl. rewrite Hpc, list_lookup_insert_eq by (by rewrite length_insert).
    unfold rw_step at 1. simpl.
    rewrite Hpc, list_lookup_insert_eq by (by rewrite !length_insert).
    eexists. split; [reflexivity|]. simpl. split; [done|].
    exists None. by rewrite !list_insert_insert_eq.
  - unfold rw_step at 1. rewrite Hpc, Ht.
    unfold rw_step at 1. simpl. rewrite Hpc, list_lookup_insert_eq by done.
    unfold rw_step at 1. simpl.
    rewrite Hpc, list_lookup_insert_eq by (by rewrite !length_insert).
    eexists. split; [reflexivity|]. simpl. split; [done|].
    exists None. by rewrite !list_insert_insert_eq.
  - unfold rw_step at 1. rewrite Hpc, Ht.
    unfold rw_step at 1. simpl. rewrite Hpc, list_lookup_insert_eq by done.
    eexists. split; [reflexivity|]. simpl. split; [done|].
    exists None. by rewrite !list_insert_insert_eq.
  - unfold rw_step at 1. rewrite Hpc, Ht.
    eexists. split; [reflexivity|]. simpl.
    destruct r as [e|]; simpl.
    + unfold group_fail. simpl. destruct (rw_err s); simpl; eauto.
    + eauto.
  - exists s. split; [done|]. split; [done|]. exists r.
    symmetry. by apply list_insert_id.
Qed.

(** The tasks [ts], which sit at the indexes from [from] on, are taken to
    their end one after the other. *)
Lemma finish_all ts : ∀ from s,
  0 < DelayMillis input → rw_pc s = RWait →
  (∀ k t, ts !! k = Some t → rw_tasks s !! (from + k)%nat = Some t) →
  ∃ s', rw_exec input stop (finish_tasks from ts) s = Some s' ∧
        rw_pc s' = RWait ∧
        length (rw_tasks s') = length (rw_tasks s) ∧
        (∀ j, (from ≤ j < from + length ts)%nat → ∃ r, rw_tasks s' !! j = Some (TDone r)) ∧
        (∀ j, ¬ (from ≤ j < from + length ts)%nat → rw_tasks s' !! j = rw_tasks s !! j).
Proof.
  induction ts as [|t ts IH]; intros from s Hd Hpc Hts.
  - exists s. simpl. repeat split; try done. intros j Hj. lia.
  - change (finish_tasks from (t :: ts))
      with (finish_task from t ++ finish_tasks (S from) ts).
    rewrite rw_exec_app.
    assert (rw_tasks s !! from = Some t) as Ht.
    { specialize (Hts 0%nat t eq_refl). by rewrite Nat.add_0_r in Hts. }
    destruct (finish_one from t s Hd Hpc Ht) as (s1 & -> & Hpc1 & r & Ht1).
    destruct (IH (S from) s1 Hd Hpc1) as (s' & He & Hpc' & Hlen & Hin & Hout).
    { intros k t' Hk. rewrite Ht1, list_lookup_insert_ne by lia.
      replace (S from + k)%nat with (from + S k)%nat by lia. by apply Hts. }
    exists s'. split; [done|]. split; [done|]. split.
    { rewrite Hlen, Ht1. by rewrite length_insert. }
    simpl length. split.
    + intros j Hj. destruct (decide (j = from)) as [->|Hne].
      * rewrite Hout by lia. rewrite Ht1. exists r.
        apply list_lookup_insert_eq. by eapply lookup_lt_Some.
      * apply Hin. lia.
    + intros j Hj. rewrite Hout by lia. rewrite Ht1. apply list_lookup_insert_ne. lia.
Qed.

(** X10.  With a positive jitter bound [runWorkers] cannot get stuck: from
    every state in which it is still running there is a continuation in
    which it returns (the loop starts the instances that are left, every
    facade that is still running returns, every task reports to the group and
    [g.Wait()] returns). *)
Theorem runWorkers_can_always_return g s :
  0 < DelayMillis input → rw_reachable input stop g s → running s →
  ∃ s' r, rw_exec input stop (finish input s) s = Some s' ∧ rw_pc s' = RReturned r.
Proof.
  intros Hd Hs Hrun. pose proof (rw_reachable_inv input stop g s Hs) as Hinv.
  assert (∀ s1, rw_reachable input stop g s1 → rw_pc s1 = RWait →
            ∃ s' r, rw_exec input stop (finish_tasks 0 (rw_tasks s1) ++ [AMain]) s1 = Some s' ∧
                    rw_pc s' = RReturned r) as Hwait.
  { intros s1 Hs1 Hpc1. rewrite rw_exec_app.
    destruct (finish_all (rw_tasks s1) 0 s1 Hd Hpc1) as (s2 & He & Hpc2 & Hlen & Hin & _).
    { intros k t Hk. done. }
    rewrite He. simpl. unfold rw_step. rewrite Hpc2.
    pose proof (rw_reachable_exec g _ s1 s2 Hs1 He) as Hs2.
    rewrite (inv_wg _ _ _ _ (rw_reachable_inv input stop g s2 Hs2)).
    rewrite pending_all_done; [eauto|].
    intros idx t Ht. destruct (Hin idx) as [r Hr]; [|by simplify_eq].
    apply lookup_lt_Some in Ht. lia. }
  unfold finish. unfold running in Hrun.
  destruct (rw_pc s) as [i| | |] eqn:Hpc; try done; [|by apply Hwait].
  pose proof (inv_loop _ _ _ _ Hinv) as Hloop. rewrite Hpc in Hloop.
  destruct Hloop as [Hi Hle].
  set (left := Z.to_nat (Instances input - i)).
  rewrite rw_exec_app.
  destruct (spawn_loop input stop left s (length (rw_tasks s)))
    as (s1 & He1 & Hpc1 & Ht1 & _); [by rewrite Hpc, Hi|unfold left; lia|].
  rewrite He1. rewrite rw_exec_app.
  assert (rw_exec input stop [AMain] s1 = Some (set_pc RWait s1)) as He2.
  { simpl. unfold rw_step. rewrite Hpc1.
    destruct (Z.ltb_spec (Z.of_nat (length (rw_tasks s) + left)) (Instances input));
      [unfold left in *; lia|done]. }
  rewrite He2.
  destruct (Hwait (set_pc RWait s1)) as (s' & r & He3 & Hpc'); [|done|].
  { eapply rw_reachable_exec; [|exact He2]. by eapply rw_reachable_exec. }
  simpl rw_tasks in He3. rewrite Ht1 in He3. eauto.
Qed.

End OrchestratorProgress.

(** * More on the process *)

Section ProcessExtras.

Context `{G : Generator}.
Variables (getenv : string) (now : Z) (args : list (string * flag.value)).

(** After [parseFlags] the generator is in the state of the seed flag. *)
Lemma parseFlags_rng p input p' :
  parseFlags getenv now args p = (Returned input, p') →
  p_rng p' = rng_seed (seed_of now args).
Proof.
  intros Hp. pose proof (parseFlags_spec getenv now args p) as Hspec.
  destruct (flag.Parse args (flags_defined getenv now)) as [fs|] eqn:Hparse; [|congruence].
  destruct Hspec as (o & Ho & _). rewrite Hp in Ho. injection Ho as _ ->.
  simpl. by rewrite (Parse_seed _ _ _ _ Hparse).
Qed.

(** X11.  In a process that generates load, [runWorkers] runs on the
    configuration [parseFlags] returned and starts with the generator in the
    state of the seed flag (or of the clock): the seed 1000 of [init] plays
    no part.  So the first jitter of the process is the first value of that
    seed for the bound given by [-delay], and every call of the facade gets
    that configuration and the stop channel of [Main]. *)
Theorem load_run_starts_from_the_seed_flag s input w :
  main_reachable getenv now args s → m_pc s = MLoad input w →
  (∃ p, parseFlags getenv now args (init boot) = (Returned input, p)) ∧
  rw_reachable input stopChan (rng_seed (seed_of now args)) w ∧
  DelayMillis input = int_flag "delay" 1000 args ∧
  match list.last (draw_events (rw_trace w)) with
  | Some e => ∃ idx, e = EDraw (Jitter idx) (int_flag "delay" 1000 args)
                            (rng_intn (rng_seed (seed_of now args))
                               (int_flag "delay" 1000 args)).1
  | None => ∀ idx t, rw_tasks w !! idx = Some t → t = TStart
  end ∧
  (∀ idx a, ECall idx a ∈ rw_trace w → call_input a = input ∧ call_stop a = stopChan).
Proof.
  intros Hs Hpc. destruct (main_reachable_inv getenv now args s Hs) as [_ Hinv].
  rewrite Hpc in Hinv. destruct Hinv as ((p & Hparse & Hreach) & _).
  rewrite (parseFlags_rng _ _ _ Hparse) in Hreach.
  assert (DelayMillis input = int_flag "delay" 1000 args) as Hdelay.
  { destruct (parseFlags_returned getenv now args _ _ _ Hparse) as (fs & Hfs & Hcommon & _).
    destruct Hcommon as (_ & _ & _ & _ & _ & _ & _ & _ & _ & _ & _ & _ & ->).
    eapply Parse_int_flag; [|done].
    pose proof (flags_defined_defaults getenv now) as Hdef. simpl in Hdef. apply Hdef. }
  split; [eauto|]. split; [done|]. split; [done|]. split.
  - pose proof (first_draw_is_jitter input stopChan _ w Hreach) as Hfirst.
    pose proof (inv_draws _ _ _ _ (rw_reachable_inv _ _ _ _ Hreach)) as Hreplay.
    pose proof (replay_last (rng_seed (seed_of now args)) (draws (rw_trace w))) as Hlast.
    rewrite Hreplay in Hlast. simpl in Hlast. rewrite Hlast.
    destruct (list.last (draws (rw_trace w))) as [[who n]|]; [|done].
    destruct Hfirst as [[idx ->] ->]. rewrite <- Hdelay. eauto.
  - intros idx a Ha. by rewrite (calls_share_context _ _ _ _ _ _ Hreach Ha).
Qed.

(** X12.  The interrupt is handled once: when the interrupt goroutine has
    finished, nothing that happens later (more interrupts included) changes
    the benchmark context, the stop channel or the goroutine. *)
Theorem interrupt_is_handled_once s d :
  main_reachable getenv now args s →
  m_bridges s = [{| b_kind := d; b_pc := BDone |}] →
  ∀ sched s', main_exec getenv now args sched s = Some s' →
    m_bridges s' = m_bridges s ∧ m_bench_ctx s' = m_bench_ctx s ∧ m_stop s' = m_stop s.
Proof.
  intros Hs Hb sched s' He.
  enough (main_inv getenv now args s' ∧
          m_bridges s' = m_bridges s ∧ m_bench_ctx s' = m_bench_ctx s ∧ m_stop s' = m_stop s)
    by tauto.
  revert He.
  apply (main_exec_invariant getenv now args
           (λ s', main_inv getenv now args s' ∧ m_bridges s' = m_bridges s ∧
                  m_bench_ctx s' = m_bench_ctx s ∧ m_stop s' = m_stop s));
    [|by split; [apply main_reachable_inv|]].
  intros a s1 s2 (Hinv & Hb1 & Hc1 & Hs1) Hstep.
  split; [by eapply main_inv_step|].
  unfold main_step in Hstep. destruct (main_ended s1); [discriminate|].
  destruct a as [|idx|idx n|idx r|r|k|].
  1-4: destruct (m_pc s1) as [p|input p|input|input w|r'|v|c] eqn:Hp; try discriminate;
       try (destruct Hinv as [_ Hinv]; rewrite Hp in Hinv;
            destruct Hinv as (_ & Hnil & _); rewrite Hnil, Hb in Hb1; discriminate).
  1-4: destruct (rw_step input stopChan _ w) as [w'|]; [|discriminate];
       by injection Hstep as <-.
  - destruct (m_pc s1) as [p|input p|input|input w|r'|v|c] eqn:Hp; try discriminate.
    injection Hstep as <-. simpl. split; [done|]. split; [|done].
    destruct Hinv as [_ Hinv]. rewrite Hp in Hinv.
    destruct Hinv as (_ & _ & _ & bp & Hbp & Hctx).
    rewrite Hbp, Hb in Hb1. injection Hb1 as _ ->. by rewrite <- Hc1, Hctx.
  - rewrite Hb1, Hb in Hstep. destruct k; simpl in Hstep; discriminate.
  - by injection Hstep as <-.
Qed.

(** X13.  An interrupt that arrives before the interrupt goroutine exists
    is not lost: it waits in [signalC], and once [Main] has chosen the mode
    the goroutine receives it and cancels the benchmark context or closes the
    stop channel, by mode. *)
Theorem early_interrupt_is_not_lost s input p :
  main_reachable getenv now args s → m_pc s = MParsed input p → m_sig s = true →
  ∃ s', main_exec getenv now args [AMain; ABridge 0; ABridge 0] s = Some s' ∧
        if IsBenchmark input
        then m_bench_ctx s' = true ∧ m_stop s' = false
        else m_stop s' = true ∧ m_bench_ctx s' = false.
Proof.
  intros Hs Hpc Hsig. destruct (main_reachable_inv getenv now args s Hs) as [_ Hinv].
  rewrite Hpc in Hinv. destruct Hinv as (_ & Hb & Hc & Hst).
  simpl. unfold main_step at 1. unfold main_ended. rewrite Hpc.
  destruct (IsBenchmark input) eqn:Hmode.
  - unfold main_step at 1. simpl. rewrite Hb, Hsig. simpl.
    unfold main_step at 1. simpl. rewrite Hb. simpl.
    eexists. split; [reflexivity|]. simpl. by rewrite Hst.
  - unfold main_step at 1. simpl. rewrite Hb, Hsig. simpl.
    unfold main_step at 1. simpl. rewrite Hb. simpl.
    eexists. split; [reflexivity|]. simpl. by rewrite Hc.
Qed.

(** X14.  When [Main] has returned, the context of the mode it ran in is
    cancelled and nothing of the other mode was touched: after a benchmark
    the deferred [cancel()] has run and the stop channel was never closed;
    after load generation the context of the group is cancelled (by
    [g.Wait()]), every task has finished, and the benchmark context was never
    cancelled. *)
Theorem contexts_cancelled_on_return s r :
  main_reachable getenv now args s → Main_result s = Some r →
  match m_pc s with
  | MLoad input w =>
      rw_ctx w = true ∧ m_bench_ctx s = false ∧ rw_pc w = RReturned r ∧
      ∀ idx t, rw_tasks w !! idx = Some t → ∃ res, t = TDone res
  | _ => m_bench_ctx s = true ∧ m_stop s = false ∧ m_pc s = MReturned r
  end.
Proof.
  intros Hs Hres. destruct (main_reachable_inv getenv now args s Hs) as [_ Hinv].
  unfold Main_result in Hres.
  destruct (m_pc s) as [p|input p|input|input w|r'|v|c] eqn:Hp; try discriminate.
  - destruct Hinv as ((p & Hparse & Hreach) & _ & Hc & _).
    destruct (rw_pc w) as [| |r'|] eqn:Hpc; try discriminate. injection Hres as ->.
    pose proof (rw_reachable_inv _ _ _ _ Hreach) as Hrw.
    split; [|split; [done|split; [done|]]].
    + rewrite (inv_ctx _ _ _ _ Hrw). unfold returned. rewrite Hpc. apply orb_true_r.
    + intros idx t Ht. destruct (inv_ret _ _ _ _ Hrw r Hpc) as [_ Hwg].
      rewrite (inv_wg _ _ _ _ Hrw) in Hwg.
      pose proof (pending_zero _ Hwg idx t Ht) as Hd. destruct t; try done. eauto.
  - injection Hres as ->. destruct Hinv as (_ & Hst & Hc & _). done.
Qed.

(** X15.  [stopChan] is open whenever [close(stopChan)] is about to run, so
    it is never closed twice; and in load generation it is closed only after
    an interrupt was delivered. *)
Theorem stop_channel_closed_at_most_once s :
  main_reachable getenv now args s →
  (∀ k, m_bridges s !! k = Some {| b_kind := GracefulStop; b_pc := BReceived |} →
        m_stop s = false) ∧
  (m_stop s = true → (1 ≤ m_interrupts s)%nat).
Proof.
  intros Hs. destruct (main_reachable_inv getenv now args s Hs) as [Hzero Hinv].
  assert (m_stop s = true → ∃ input w, m_pc s = MLoad input w ∧
            m_bridges s = [{| b_kind := GracefulStop; b_pc := BDone |}]) as Hclosed.
  { intros Hst. destruct (m_pc s) as [p|input p|input|input w|r'|v|c] eqn:Hp;
      break_up; try congruence.
    match goal with Hd : m_stop s = bridge_done ?bp |- _ =>
      rewrite Hst in Hd; destruct bp; try discriminate end. eauto. }
  split.
  - intros k Hk. destruct (m_stop s) eqn:Hst; [|done].
    destruct (Hclosed eq_refl) as (input & w & _ & Hb). rewrite Hb in Hk.
    destruct k; simpl in Hk; discriminate.
  - intros Hst. destruct (Hclosed Hst) as (input & w & _ & Hb).
    destruct (m_interrupts s) eqn:Hz; [|lia].
    destruct (Hzero eq_refl) as [_ Hw].
    specialize (Hw {| b_kind := GracefulStop; b_pc := BDone |}). rewrite Hb in Hw.
    by specialize (Hw ltac:(left)).
Qed.

End ProcessExtras.

(** * The exit status *)

Section ExitStatus.

Context `{G : Generator}.
Variables (getenv : string) (now : Z) (args : list (string * flag.value)).

(** What [runWorkers] returned, by the results of its tasks. *)
Lemma returned_by_results input stop g w r :
  rw_reachable input stop g w → rw_pc w = RReturned r →
  (∀ idx t, rw_tasks w !! idx = Some t → ∃ res, t = TDone res) ∧
  (is_Some r ↔ ∃ idx e, rw_tasks w !! idx = Some (TDone (Some e))).
Proof.
  intros Hw Hpc. pose proof (rw_reachable_inv _ _ _ _ Hw) as Hinv.
  destruct (inv_ret _ _ _ _ Hinv r Hpc) as [Hr Hwg].
  rewrite (inv_err _ _ _ _ Hinv) in Hr. rewrite (inv_wg _ _ _ _ Hinv) in Hwg.
  split.
  - intros idx t Ht. pose proof (pending_zero _ Hwg idx t Ht) as Hd.
    destruct t; try done. eauto.
  - split.
    + intros [e He]. rewrite He in Hr. symmetry in Hr.
      destruct (first_failure_elem _ _ Hr) as [i Hi]. exists i, e.
      by apply (failure_of_task input stop g w i e Hw).
    + intros (idx & e & Ht). rewrite Hr. apply (elem_first_failure _ idx e).
      by apply (failure_of_task input stop g w idx e Hw).
Qed.

(** X16.  A process that generates load ends with status 0 exactly when
    [runWorkers] has returned and every instance finished with a nil result,
    with status 1 exactly when it has returned and some instance finished
    with an error, and with status 2 exactly when the jitter draw panicked,
    which takes a jitter bound that is not positive. *)
Theorem exit_status_of_a_load_run s input w :
  main_reachable getenv now args s → m_pc s = MLoad input w →
  (exit_status s = Some 0 ↔
   returned w = true ∧ ∀ idx t, rw_tasks w !! idx = Some t → t = TDone None) ∧
  (exit_status s = Some 1 ↔
   returned w = true ∧ ∃ idx e, rw_tasks w !! idx = Some (TDone (Some e))) ∧
  (exit_status s = Some 2 ↔ rw_pc w = RCrashed IntnInvalid ∧ DelayMillis input ≤ 0).
Proof.
  intros Hs Hpc. destruct (main_reachable_inv getenv now args s Hs) as [_ Hinv].
  rewrite Hpc in Hinv. destruct Hinv as ((p & _ & Hw) & _).
  pose proof (rw_reachable_inv _ _ _ _ Hw) as Hrw.
  unfold exit_status, returned. rewrite Hpc.
  destruct (rw_pc w) as [i| |r|v] eqn:Hpcw.
  - repeat split; first [discriminate | intros [Hx _]; discriminate].
  - repeat split; first [discriminate | intros [Hx _]; discriminate].
  - destruct (returned_by_results _ _ _ _ _ Hw Hpcw) as [Hdone Hsome].
    split; [|split].
    + split.
      * intros Hr. split; [done|]. intros idx t Ht.
        destruct (Hdone idx t Ht) as [[e|] ->]; [|done].
        destruct r; [discriminate|]. destruct (proj2 Hsome) as [x Hx]; [eauto|discriminate].
      * intros [_ Hall]. destruct r as [e|]; [|done].
        destruct (proj1 Hsome) as (idx & e' & Ht); [eauto|].
        by specialize (Hall idx _ Ht).
    + split.
      * intros Hr. split; [done|]. apply Hsome. destruct r; [eauto|discriminate].
      * intros [_ Hex]. by destruct (proj2 Hsome Hex) as [e ->].
    + split; [by destruct r|]. intros [? _]. discriminate.
  - destruct (inv_crash _ _ _ _ Hrw v Hpcw) as [-> Hd].
    repeat split; first [done | discriminate | intros [Hx _]; discriminate].
Qed.

End ExitStatus.
(** * Runs on concrete inputs *)

(** The runs below use the generator [Lcg.generator]. *)
Import Lcg.

(** C4: in benchmark mode the span limits given on the command line are not
    returned (both come back as zero, also when they were supplied in order),
    and the construction can fail although they were supplied. *)
Lemma span_limits_dropped_in_benchmark_mode :
  match parseFlags "" 17
          [("bench", flag.VBool true); ("sm", flag.VInt 3); ("sx", flag.VInt 7)] boot with
  | (Returned input, _) =>
      SpanMinLimit input = 0 ∧ SpanMaxLimit input = 0 ∧
      SpanMinLimit input ≠ 3 ∧ SpanMaxLimit input ≠ 7
  | _ => False
  end ∧
  match parseFlags "" 17
          [("bench", flag.VBool true); ("rd", flag.VString "abc");
           ("sm", flag.VInt 5); ("sx", flag.VInt 2)] boot with
  | (Panicked v, _) => v = AtoiError "abc"
  | _ => False
  end.
Proof. vm_compute. repeat split; discriminate. Qed.

(** C5: with a jitter bound of zero (non-negative) and one instance, the
    first move of the instance ends the process with the panic of
    [rand.Intn]; nothing is drawn and, in every state of the run, the facade
    has not been called. *)
Lemma jitter_bound_zero_panics :
  0 ≤ DelayMillis (sample_input 1 0) ∧
  match rw_exec (sample_input 1 0) stopChan [AMain; ATask 0]
          (runWorkers_start (rng_seed 7)) with
  | Some s => rw_pc s = RCrashed IntnInvalid ∧ rw_trace s = []
  | None => False
  end ∧
  (∀ s, rw_reachable (sample_input 1 0) stopChan (rng_seed 7) s →
        ∀ idx a, ECall idx a ∉ rw_trace s).
Proof.
  split; [done|]. split; [by vm_compute|].
  intros s Hs idx a.
  destruct (nonpositive_bound_inv (sample_input 1 0) stopChan _ s ltac:(simpl; lia) Hs)
    as [_ ->].
  apply not_elem_of_nil.
Qed.

(** C6: same seed, same configuration, two schedules: instance 0 draws 655
    when it draws first and 457 when instance 1 draws first. *)
Lemma jitter_depends_on_schedule :
  match rw_exec (sample_input 2 1000) stopChan [AMain; AMain; ATask 0; ATask 1]
          (runWorkers_start (rng_seed 5)),
        rw_exec (sample_input 2 1000) stopChan [AMain; AMain; ATask 1; ATask 0]
          (runWorkers_start (rng_seed 5)) with
  | Some s1, Some s2 =>
      jitter_of 0 (rw_trace s1) = Some 655 ∧ jitter_of 0 (rw_trace s2) = Some 457 ∧
      jitter_of 0 (rw_trace s1) ≠ jitter_of 0 (rw_trace s2)
  | _, _ => False
  end.
Proof. vm_compute. repeat split; discriminate. Qed.

(** C7: a process started without [-seed] at time 17 has seeded the
    generator twice when [parseFlags] returns: with 1000, then with 17. *)
Lemma generator_seeded_twice :
  seeds (p_trace (parseFlags "" 17 [] (init boot)).2) = [1000; 17] ∧
  length (seeds (p_trace (parseFlags "" 17 [] (init boot)).2)) ≠ 1%nat.
Proof. vm_compute. split; [reflexivity|discriminate]. Qed.

(** A run in which instance 0 fails first inside the facade but instance 1
    reaches the group first. *)
Lemma runWorkers_first_error_witness :
  match rw_exec (sample_input 2 1000) stopChan
          [AMain; AMain; ATask 0; ATask 1; AMain; ATask 1; ATask 0;
           AFacadeRet 0 (Some "boom"); AFacadeRet 1 (Some "bang");
           ATask 1; ATask 0; AMain]
          (runWorkers_start (rng_seed 5)) with
  | Some s => rw_pc s = RReturned (Some "bang") ∧
              first_failure (rw_trace s) = Some "bang" ∧ rw_ctx s = true
  | None => False
  end ∧
  ∃ s, rw_exec (sample_input 3 1000) stopChan (sequential [None; Some "boom"; Some "bang"])
         (runWorkers_start (rng_seed 5)) = Some s ∧
       rw_pc s = RReturned (Some "boom").
Proof.
  split.
  - assert (match rw_exec (sample_input 2 1000) stopChan
                    [AMain; AMain; ATask 0; ATask 1; AMain; ATask 1; ATask 0;
                     AFacadeRet 0 (Some "boom"); AFacadeRet 1 (Some "bang");
                     ATask 1; ATask 0; AMain]
                    (runWorkers_start (rng_seed 5)) with
            | Some s => rw_pc s = RReturned (Some "bang")
            | None => False
            end) as Hrun by (vm_compute; reflexivity).
    destruct (rw_exec _ _ _ _) as [s|] eqn:E; [|exact Hrun].
    destruct (runWorkers_first_error (sample_input 2 1000) stopChan (rng_seed 5))
      as [Hsafe _].
    destruct (Hsafe s (ex_intro _ _ E)) as (Hctx & _ & Hret).
    destruct (Hret _ Hrun) as [Hr _].
    split; [exact Hrun|]. split; [symmetry; exact Hr|].
    apply Hctx. rewrite <- Hr. exists "bang". reflexivity.
  - destruct (runWorkers_first_error (sample_input 3 1000) stopChan (rng_seed 5))
      as [_ Hlive].
    destruct (Hlive ltac:(simpl; lia) [None; Some "boom"; Some "bang"] ltac:(simpl; lia))
      as (s & Hs & Hpc & _).
    exists s. split; [exact Hs|exact Hpc].
Defined.

Lemma interrupt_discipline_by_mode_witness :
  match main_exec "" 17 [("bench", flag.VBool true)]
          [AMain; AMain; AInterrupt; ABridge 0; ABridge 0] process_start with
  | Some s => (∃ input, m_pc s = MBench input) ∧
              m_bridges s = [{| b_kind := HardCancel; b_pc := BDone |}] ∧
              m_bench_ctx s = true ∧ m_stop s = false
  | None => False
  end ∧
  match main_exec "" 17 [] [AMain; AMain; AInterrupt; ABridge 0; ABridge 0] process_start with
  | Some s => (∃ input, m_pc s = MLoad input (runWorkers_start (rng_seed 17))) ∧
              m_bridges s = [{| b_kind := GracefulStop; b_pc := BDone |}] ∧
              m_stop s = true ∧ m_bench_ctx s = false ∧
              (length (m_bridges s) ≤ 1)%nat ∧ m_bench_ctx s && m_stop s = false
  | None => False
  end.
Proof.
  split.
  - assert (match parseFlags "" 17 [("bench", flag.VBool true)] (init boot) with
            | (Returned input, _) => IsBenchmark input
            | _ => false
            end = true) as Hmode by (vm_compute; reflexivity).
    destruct (parseFlags "" 17 [("bench", flag.VBool true)] (init boot))
      as [[input|v|c] p] eqn:Hparse; try discriminate Hmode.
    destruct (interrupt_discipline_by_mode "" 17 [("bench", flag.VBool true)]) as [Henter _].
    destruct (Henter input p Hparse) as (s1 & s2 & E1 & E2 & _ & _ & _ & _ & Hpc & Hrest).
    rewrite Hmode in Hrest. destruct Hrest as (Hpc1 & _ & Hb & Hc & Hs).
    change [AMain; AMain; AInterrupt; ABridge 0; ABridge 0]
      with ([AMain; AMain] ++ [AInterrupt; ABridge 0; ABridge 0]).
    rewrite main_exec_app, E1, E2.
    split; [exists input; rewrite Hpc; exact Hpc1|]. split; [exact Hb|]. split; [exact Hc|exact Hs].
  - assert (match parseFlags "" 17 [] (init boot) with
            | (Returned input, _) => negb (IsBenchmark input)
            | _ => false
            end = true) as Hmode by (vm_compute; reflexivity).
    destruct (parseFlags "" 17 [] (init boot)) as [[input|v|c] p] eqn:Hparse;
      try discriminate Hmode.
    apply negb_true_iff in Hmode.
    assert (p_rng p = rng_seed 17) as Hrng.
    { rewrite (parseFlags_rng "" 17 [] _ _ _ Hparse). reflexivity. }
    destruct (interrupt_discipline_by_mode "" 17 []) as [Henter Hsafe].
    destruct (Henter input p Hparse) as (s1 & s2 & E1 & E2 & _ & _ & _ & _ & Hpc & Hrest).
    rewrite Hmode in Hrest. destruct Hrest as (Hpc1 & _ & Hb & Hs & Hc).
    assert (main_exec "" 17 [] [AMain; AMain; AInterrupt; ABridge 0; ABridge 0] process_start
            = Some s2) as E.
    { change [AMain; AMain; AInterrupt; ABridge 0; ABridge 0]
        with ([AMain; AMain] ++ [AInterrupt; ABridge 0; ABridge 0]).
      rewrite main_exec_app, E1. exact E2. }
    destruct (Hsafe s2 (ex_intro _ _ E)) as (H1 & H2 & _).
    rewrite E.
    split; [exists input; rewrite Hpc, Hpc1, Hrng; reflexivity|].
    split; [exact Hb|]. split; [exact Hs|]. split; [exact Hc|]. split; [exact H1|exact H2].
Defined.

Lemma parseFlags_panics_iff_benchmark_days_not_integer_witness :
  ∃ v p', parseFlags "" 17 [("bench", flag.VBool true); ("rd", flag.VString "abc")] boot
          = (Panicked v, p').
Proof.
  assert (match flag.Parse [("bench", flag.VBool true); ("rd", flag.VString "abc")]
                  (flags_defined "" 17) with
          | Some fs => flag.bool_at fs "bench" = true ∧
                       strconv.Atoi (flag.string_at fs "rd") = None
          | None => False
          end) as Hfs by (vm_compute; split; reflexivity).
  destruct (flag.Parse _ _) as [fs|] eqn:E; [|destruct Hfs].
  destruct Hfs as [Hbench Hdays].
  destruct (parseFlags_panics_iff_benchmark_days_not_integer "" 17
              [("bench", flag.VBool true); ("rd", flag.VString "abc")]) as [Hiff _].
  apply (proj2 (Hiff boot)). exists fs. split; [exact E|]. split; [exact Hbench|exact Hdays].
Defined.

Lemma span_limits_clamped_in_load_mode_witness :
  ∃ input p', parseFlags "" 17 [("sm", flag.VInt 5); ("sx", flag.VInt 2)] boot
              = (Returned input, p') ∧
              SpanMinLimit input = 5 ∧ SpanMaxLimit input = 5.
Proof.
  assert (match flag.Parse [("sm", flag.VInt 5); ("sx", flag.VInt 2)] (flags_defined "" 17) with
          | Some fs => flag.bool_at fs "bench" = false ∧
                       flag.int_at fs "sm" = 5 ∧ flag.int_at fs "sx" = 2
          | None => False
          end) as Hfs by (vm_compute; repeat split; reflexivity).
  destruct (flag.Parse _ _) as [fs|] eqn:E; [|destruct Hfs].
  destruct Hfs as (Hbench & Hsm & Hsx).
  destruct (span_limits_clamped_in_load_mode "" 17
              [("sm", flag.VInt 5); ("sx", flag.VInt 2)] boot) as [Hload _].
  destruct (Hload fs E Hbench) as (input & p' & Hp & Hmin & Hmax).
  exists input, p'. rewrite Hsm, Hsx in Hmax. rewrite Hsm in Hmin.
  split; [exact Hp|]. split; [exact Hmin|exact Hmax].
Defined.

Lemma runWorkers_staggered_start_witness :
  ∃ s, rw_exec (sample_input 2 1000) stopChan [AMain; AMain; AMain]
         (runWorkers_start (rng_seed 5)) = Some s ∧
       rw_pc s = RWait ∧ rw_tasks s = [TStart; TStart] ∧ rw_trace s = [] ∧
       ∃ s', rw_step (sample_input 2 1000) stopChan (ATask 1) s = Some s' ∧
             rw_rng s' = (rng_intn (rng_seed 5) 1000).2 ∧
             rw_trace s' = [ESleep 1 (655 * Millisecond); EDraw (Jitter 1) 1000 655] ∧
             rw_tasks s' = [TStart; TSleep (655 * Millisecond)] ∧
             ∃ s'', rw_step (sample_input 2 1000) stopChan (ATask 1) s' = Some s'' ∧
                    rw_trace s'' = ECall 1 (worker_args (sample_input 2 1000) stopChan)
                                     :: rw_trace s' ∧
                    rw_tasks s'' = [TStart; TRun].
Proof.
  assert ((rng_intn (rng_seed 5) 1000).1 = 655) as Hdraw by (vm_compute; reflexivity).
  assert (duration_mul 655 Millisecond = 655 * Millisecond) as Hmul
    by (vm_compute; reflexivity).
  destruct (runWorkers_staggered_start (sample_input 2 1000) stopChan (rng_seed 5)
              ltac:(simpl; lia)) as ((s & E & Hpc & Ht & Htr & Hg) & Hall & Hsafe).
  change (Z.to_nat (Instances (sample_input 2 1000))) with 2%nat in E, Ht.
  change (replicate 2 AMain ++ [AMain]) with [AMain; AMain; AMain] in E.
  change (replicate 2 TStart) with [TStart; TStart] in Ht.
  exists s. split; [exact E|]. split; [exact Hpc|]. split; [exact Ht|]. split; [exact Htr|].
  destruct (Hsafe s (ex_intro _ _ E)) as (_ & _ & _ & _ & _ & Hstart & _).
  assert (running s) as Hrun by (unfold running; rewrite Hpc; exact I).
  destruct (Hstart 1%nat Hrun ltac:(rewrite Ht; reflexivity))
    as (_ & s' & E' & Hg' & Htr' & Ht' & Hl' & Hpc').
  change (DelayMillis (sample_input 2 1000)) with 1000 in Hg', Htr', Ht', Hl'.
  rewrite Hg in Hg', Htr', Ht', Hl'. rewrite Hdraw, Hmul in Htr', Ht', Hl'.
  rewrite Htr in Htr'. rewrite Ht in Ht'.
  exists s'. split; [exact E'|]. split; [exact Hg'|]. split; [exact Htr'|]. split; [exact Ht'|].
  assert (rw_reachable (sample_input 2 1000) stopChan (rng_seed 5) s') as Hs'.
  { exists ([AMain; AMain; AMain] ++ [ATask 1%nat]). rewrite rw_exec_app, E. simpl.
    rewrite E'. reflexivity. }
  destruct (Hsafe s' Hs') as (_ & _ & _ & _ & _ & _ & Hsleep).
  assert (running s') as Hrun' by (unfold running; rewrite Hpc', Hpc; exact I).
  destruct (Hsleep 1%nat _ Hrun' Hl') as (s'' & E'' & _ & Htr'' & Ht'' & _).
  rewrite Ht' in Ht''.
  exists s''. split; [exact E''|]. split; [exact Htr''|exact Ht''].
Defined.

Lemma jitter_determined_by_draw_order_witness :
  match rw_exec (sample_input 2 1000) stopChan [AMain; ATask 0; AMain; ATask 1]
          (runWorkers_start (rng_seed 5)),
        rw_exec (sample_input 2 1000) stopChan [AMain; AMain; ATask 0; ATask 1; ATask 0]
          (runWorkers_start (rng_seed 5)) with
  | Some s1, Some s2 => ∀ idx, jitter_of idx (rw_trace s1) = jitter_of idx (rw_trace s2)
  | _, _ => False
  end.
Proof.
  assert (match rw_exec (sample_input 2 1000) stopChan [AMain; ATask 0; AMain; ATask 1]
                  (runWorkers_start (rng_seed 5)),
                rw_exec (sample_input 2 1000) stopChan
                  [AMain; AMain; ATask 0; ATask 1; ATask 0]
                  (runWorkers_start (rng_seed 5)) with
          | Some s1, Some s2 => draws (rw_trace s1) = draws (rw_trace s2)
          | _, _ => False
          end) as Hrun by (vm_compute; reflexivity).
  revert Hrun.
  match goal with |- match ?e1 with _ => _ end → _ => destruct e1 as [s1|] eqn:E1 end;
    [|intros []].
  match goal with |- match ?e2 with _ => _ end → _ => destruct e2 as [s2|] eqn:E2 end;
    [|intros []].
  intros Hrun.
  destruct (jitter_determined_by_draw_order (sample_input 2 1000) stopChan (rng_seed 5) s1 s2
              (ex_intro _ _ E1) (ex_intro _ _ E2) Hrun) as (_ & _ & H).
  exact H.
Defined.

Lemma generator_seeded_by_init_then_parseFlags_witness :
  match parseFlags "" 17 [("seed", flag.VInt64 42)] (init boot) with
  | (o, p') => seeds (p_trace p') = match o with Exited _ => [1000] | _ => [1000; 42] end
  end.
Proof.
  destruct (generator_seeded_by_init_then_parseFlags "" 17 [("seed", flag.VInt64 42)])
    as (_ & _ & H & _).
  destruct (parseFlags _ _ _ _) as [o p'].
  exact (H o p' eq_refl).
Defined.

Lemma runWorkers_no_instances_witness :
  Instances (sample_input 0 1000) = 0 ∧
  ∃ s, rw_exec (sample_input 0 1000) stopChan [AMain; AMain]
         (runWorkers_start (rng_seed 7)) = Some s ∧
       rw_pc s = RReturned None ∧ rw_trace s = [].
Proof.
  split; [reflexivity|].
  exact (proj1 (runWorkers_no_instances (sample_input 0 1000) stopChan (rng_seed 7) eq_refl)).
Defined.

Lemma jitter_draw_needs_positive_bound_witness :
  DelayMillis (sample_input 1 0) ≤ 0 ∧
  ∃ s, rw_exec (sample_input 1 0) stopChan [AMain; ATask 0]
         (runWorkers_start (rng_seed 7)) = Some s ∧
       rw_pc s = RCrashed IntnInvalid.
Proof.
  split; [simpl; lia|].
  apply (proj2 (jitter_draw_needs_positive_bound (sample_input 1 0) stopChan (rng_seed 7)
                  ltac:(simpl; lia))).
  simpl. lia.
Defined.

Lemma service_name_flag_is_ignored_witness :
  match parseFlags "" 17 [("service-name", flag.VString "custom")] boot with
  | (Returned input, _) => ServiceName input = "hey-service"
  | _ => False
  end.
Proof.
  assert (match parseFlags "" 17 [("service-name", flag.VString "custom")] boot with
          | (Returned _, _) => true
          | _ => false
          end = true) as Hrun by (vm_compute; reflexivity).
  destruct (parseFlags _ _ _ _) as [[input|v|c] p'] eqn:E; try discriminate Hrun.
  exact (service_name_flag_is_ignored 17 _ boot input p' E).
Defined.

(** ** Runs for the further properties *)

Lemma returned_fields_follow_command_line_witness :
  match parseFlags "" 17
          [("instances", flag.VInt 3); ("delay", flag.VInt 50); ("instances", flag.VInt 4)]
          boot with
  | (Returned input, _) => Instances input = 4 ∧ DelayMillis input = 50
  | _ => False
  end.
Proof.
  assert (match parseFlags "" 17
                  [("instances", flag.VInt 3); ("delay", flag.VInt 50);
                   ("instances", flag.VInt 4)] boot with
          | (Returned _, _) => true
          | _ => false
          end = true) as Hrun by (vm_compute; reflexivity).
  destruct (parseFlags _ _ _ _) as [[input|v|c] p'] eqn:E; try discriminate Hrun.
  destruct (returned_fields_follow_command_line "" 17 _ boot input p' E)
    as (_ & _ & _ & _ & _ & _ & _ & _ & _ & _ & Hi & Hd).
  split; [exact Hi|exact Hd].
Defined.

Lemma service_name_from_environment_witness :
  parseFlags "checkout" 17 [("service-name", flag.VString "cart")] boot = (Exited 2, boot).
Proof.
  apply (proj2 (service_name_from_environment "checkout" 17
                  [("service-name", flag.VString "cart")] boot ltac:(discriminate))
           (flag.VString "cart")).
  left.
Defined.

Lemma payload_options_in_load_mode_witness :
  match parseFlags "" 17 [("ex", flag.VInt 2); ("em", flag.VInt 5)] boot with
  | (Returned input, _) => ErrorFrameMaxLimit input = 2 ∧ ErrorFrameMinLimit input = 5
  | _ => False
  end.
Proof.
  assert (match parseFlags "" 17 [("ex", flag.VInt 2); ("em", flag.VInt 5)] boot with
          | (Returned input, _) => IsBenchmark input = false
          | _ => False
          end) as Hrun by (vm_compute; reflexivity).
  destruct (parseFlags _ _ _ _) as [[input|v|c] p'] eqn:E; [|destruct Hrun..].
  destruct (payload_options_in_load_mode "" 17 _ boot input p' E Hrun)
    as (_ & _ & _ & _ & _ & _ & Hx & Hm).
  split; [exact Hx|exact Hm].
Defined.

Lemma regression_settings_by_mode_witness :
  match parseFlags "" 17 [("bench", flag.VBool true); ("rd", flag.VString "14")] boot with
  | (Returned input, _) => RegressionDays input = "14" ∧ SpanMaxLimit input = 0
  | _ => False
  end.
Proof.
  assert (match parseFlags "" 17 [("bench", flag.VBool true); ("rd", flag.VString "14")]
                  boot with
          | (Returned input, _) => IsBenchmark input = true
          | _ => False
          end) as Hrun by (vm_compute; reflexivity).
  destruct (parseFlags _ _ _ _) as [[input|v|c] p'] eqn:E; [|destruct Hrun..].
  pose proof (regression_settings_by_mode "" 17 _ boot input p' E) as H.
  rewrite Hrun in H. destruct H as (Hd & _ & _ & _ & Hsx & _).
  split; [exact Hd|exact Hsx].
Defined.

Lemma runWorkers_nonpositive_instances_witness :
  Instances (sample_input (-3) 1000) ≤ 0 ∧
  ∃ s, rw_exec (sample_input (-3) 1000) stopChan [AMain; AMain]
         (runWorkers_start (rng_seed 7)) = Some s ∧
       rw_pc s = RReturned None ∧ rw_trace s = [] ∧ rw_tasks s = [].
Proof.
  split; [simpl; lia|].
  exact (proj1 (runWorkers_nonpositive_instances (sample_input (-3) 1000) stopChan
                  (rng_seed 7) ltac:(simpl; lia))).
Defined.

(** With the counting generator in state 9223372036855 and a bound of
    [2 ^ 62] milliseconds, the instance started by the first turn of the loop
    draws 9223372036855 and does not sleep. *)
Lemma jitter_sleep_wraps_around_witness :
  ∃ s' d,
    @rw_step Counter.generator (sample_input 1 (2 ^ 62)) stopChan (ATask 0)
      (set_pc (RSpawn 1) (group_go (@runWorkers_start Counter.generator 9223372036855))) = Some s' ∧
    rw_tasks s' !! 0%nat = Some (TSleep d) ∧
    d = 9223372036855 * Millisecond - 2 ^ 64 ∧ d < 0 ∧ sleep_time d = 0.
Proof.
  apply (@jitter_sleep_wraps_around Counter.generator (sample_input 1 (2 ^ 62)) stopChan
           (set_pc (RSpawn 1) (group_go (@runWorkers_start Counter.generator 9223372036855)))
           0%nat 9223372036855 9223372036856).
  - exact I.
  - reflexivity.
  - reflexivity.
  - lia.
  - simpl. lia.
Defined.

Lemma wait_group_counts_unfinished_tasks_witness :
  match rw_exec (sample_input 2 1000) stopChan
          [AMain; AMain; ATask 0; ATask 0; AFacadeRet 0 None; ATask 0]
          (runWorkers_start (rng_seed 5)) with
  | Some s => rw_wg s = pending (rw_tasks s)
  | None => False
  end.
Proof.
  assert (match rw_exec (sample_input 2 1000) stopChan
                  [AMain; AMain; ATask 0; ATask 0; AFacadeRet 0 None; ATask 0]
                  (runWorkers_start (rng_seed 5)) with
          | Some _ => true
          | None => false
          end = true) as Hrun by (vm_compute; reflexivity).
  destruct (rw_exec _ _ _ _) as [s|] eqn:E; [|discriminate Hrun].
  exact (proj1 (wait_group_counts_unfinished_tasks (sample_input 2 1000) stopChan
                  (rng_seed 5) s (ex_intro _ _ E))).
Defined.

Lemma facade_called_at_most_once_witness :
  match rw_exec (sample_input 2 1000) stopChan
          [AMain; AMain; ATask 0; ATask 0; AFacadeRet 0 (Some "boom"); ATask 0]
          (runWorkers_start (rng_seed 5)) with
  | Some s => calls 0 (rw_trace s) = [worker_args (sample_input 2 1000) stopChan] ∧
              calls 1 (rw_trace s) = []
  | None => False
  end.
Proof.
  assert (match rw_exec (sample_input 2 1000) stopChan
                  [AMain; AMain; ATask 0; ATask 0; AFacadeRet 0 (Some "boom"); ATask 0]
                  (runWorkers_start (rng_seed 5)) with
          | Some s => rw_tasks s = [TDone (Some "boom"); TStart]
          | None => False
          end) as Hrun by (vm_compute; reflexivity).
  destruct (rw_exec _ _ _ _) as [s|] eqn:E; [|destruct Hrun].
  pose proof (facade_called_at_most_once (sample_input 2 1000) stopChan (rng_seed 5) s
                0%nat (ex_intro _ _ E)) as H0.
  pose proof (facade_called_at_most_once (sample_input 2 1000) stopChan (rng_seed 5) s
                1%nat (ex_intro _ _ E)) as H1.
  rewrite Hrun in H0, H1. split; [exact H0|exact H1].
Defined.

Lemma first_draw_is_the_first_jitter_witness :
  match rw_exec (sample_input 2 1000) stopChan [AMain; AMain; ATask 1; ATask 0]
          (runWorkers_start (rng_seed 5)) with
  | Some s =>
      match list.last (draw_events (rw_trace s)) with
      | Some e => ∃ idx, e = EDraw (Jitter idx) 1000 (rng_intn (rng_seed 5) 1000).1
      | None => ∀ idx t, rw_tasks s !! idx = Some t → t = TStart
      end
  | None => False
  end.
Proof.
  assert (match rw_exec (sample_input 2 1000) stopChan [AMain; AMain; ATask 1; ATask 0]
                  (runWorkers_start (rng_seed 5)) with
          | Some _ => true
          | None => false
          end = true) as Hrun by (vm_compute; reflexivity).
  destruct (rw_exec _ _ _ _) as [s|] eqn:E; [|discriminate Hrun].
  exact (first_draw_is_the_first_jitter (sample_input 2 1000) stopChan (rng_seed 5) s
           (ex_intro _ _ E)).
Defined.

Lemma runWorkers_can_always_return_witness :
  match rw_exec (sample_input 3 1000) stopChan [AMain; AMain; ATask 1; ATask 0; ATask 1]
          (runWorkers_start (rng_seed 5)) with
  | Some s => ∃ s' r, rw_exec (sample_input 3 1000) stopChan
                        (finish (sample_input 3 1000) s) s = Some s' ∧
                      rw_pc s' = RReturned r
  | None => False
  end.
Proof.
  assert (match rw_exec (sample_input 3 1000) stopChan
                  [AMain; AMain; ATask 1; ATask 0; ATask 1]
                  (runWorkers_start (rng_seed 5)) with
          | Some s => running s
          | None => False
          end) as Hrun by (vm_compute; exact I).
  destruct (rw_exec _ _ _ _) as [s|] eqn:E; [|destruct Hrun].
  exact (runWorkers_can_always_return (sample_input 3 1000) stopChan (rng_seed 5) s
           ltac:(simpl; lia) (ex_intro _ _ E) Hrun).
Defined.

Lemma load_run_starts_from_the_seed_flag_witness :
  match main_exec "" 17 [("seed", flag.VInt64 42)] [AMain; AMain; AMain; ATask 0]
          process_start with
  | Some s =>
      match m_pc s with
      | MLoad input w =>
          rw_reachable input stopChan (rng_seed 42) w ∧ DelayMillis input = 1000
      | _ => False
      end
  | None => False
  end.
Proof.
  assert (match main_exec "" 17 [("seed", flag.VInt64 42)] [AMain; AMain; AMain; ATask 0]
                  process_start with
          | Some s => match m_pc s with MLoad _ _ => true | _ => false end
          | None => false
          end = true) as Hrun by (vm_compute; reflexivity).
  destruct (main_exec _ _ _ _ _) as [s|] eqn:E; [|discriminate Hrun].
  destruct (m_pc s) as [p|input p|input|input w|r'|v|c] eqn:Hp; try discriminate Hrun.
  destruct (load_run_starts_from_the_seed_flag "" 17 [("seed", flag.VInt64 42)] s input w
              (ex_intro _ _ E) Hp) as (_ & Hreach & Hd & _).
  split; [exact Hreach|exact Hd].
Defined.

Lemma interrupt_is_handled_once_witness :
  match main_exec "" 17 [] [AMain; AMain; AInterrupt; ABridge 0; ABridge 0] process_start with
  | Some s =>
      match main_exec "" 17 [] [AInterrupt; AMain; AInterrupt] s with
      | Some s' => m_stop s' = m_stop s ∧ m_bridges s' = m_bridges s
      | None => False
      end
  | None => False
  end.
Proof.
  assert (match main_exec "" 17 [] [AMain; AMain; AInterrupt; ABridge 0; ABridge 0]
                  process_start with
          | Some s =>
              m_bridges s = [{| b_kind := GracefulStop; b_pc := BDone |}] ∧
              match main_exec "" 17 [] [AInterrupt; AMain; AInterrupt] s with
              | Some _ => true
              | None => false
              end = true
          | None => False
          end) as Hrun by (vm_compute; split; reflexivity).
  destruct (main_exec _ _ _ _ process_start) as [s|] eqn:E; [|destruct Hrun].
  destruct Hrun as [Hb Hnext].
  destruct (main_exec _ _ _ _ s) as [s'|] eqn:E'; [|discriminate Hnext].
  destruct (interrupt_is_handled_once "" 17 [] s GracefulStop (ex_intro _ _ E) Hb _ s' E')
    as (H1 & _ & H2).
  split; [exact H2|exact H1].
Defined.

Lemma early_interrupt_is_not_lost_witness :
  match main_exec "" 17 [("bench", flag.VBool true)] [AInterrupt; AMain] process_start with
  | Some s =>
      ∃ s', main_exec "" 17 [("bench", flag.VBool true)] [AMain; ABridge 0; ABridge 0] s
            = Some s' ∧ m_bench_ctx s' = true ∧ m_stop s' = false
  | None => False
  end.
Proof.
  assert (match main_exec "" 17 [("bench", flag.VBool true)] [AInterrupt; AMain]
                  process_start with
          | Some s =>
              m_sig s = true ∧
              match m_pc s with
              | MParsed input _ => IsBenchmark input = true
              | _ => False
              end
          | None => False
          end) as Hrun by (vm_compute; split; reflexivity).
  destruct (main_exec _ _ _ _ _) as [s|] eqn:E; [|destruct Hrun].
  destruct Hrun as [Hsig Hpc].
  destruct (m_pc s) as [p|input p|input|input w|r'|v|c] eqn:Hp;
    [destruct Hpc| |destruct Hpc..].
  destruct (early_interrupt_is_not_lost "" 17 [("bench", flag.VBool true)] s input p
              (ex_intro _ _ E) Hp Hsig) as (s' & He & Hmode).
  rewrite Hpc in Hmode. exists s'. split; [exact He|exact Hmode].
Defined.

Lemma contexts_cancelled_on_return_witness :
  match main_exec "" 17 [("bench", flag.VBool true)]
          [AMain; AMain; ABenchRet (Some "regression")] process_start with
  | Some s => m_bench_ctx s = true ∧ m_stop s = false
  | None => False
  end.
Proof.
  assert (match main_exec "" 17 [("bench", flag.VBool true)]
                  [AMain; AMain; ABenchRet (Some "regression")] process_start with
          | Some s =>
              Main_result s = Some (Some "regression") ∧
              match m_pc s with MLoad _ _ => False | _ => True end
          | None => False
          end) as Hrun by (vm_compute; split; [reflexivity|exact I]).
  destruct (main_exec _ _ _ _ _) as [s|] eqn:E; [|destruct Hrun].
  destruct Hrun as [Hres Hpc].
  pose proof (contexts_cancelled_on_return "" 17 [("bench", flag.VBool true)] s _
                (ex_intro _ _ E) Hres) as H.
  destruct (m_pc s); [| | |destruct Hpc|..]; destruct H as (Hc & Hs & _); split; assumption.
Defined.

Lemma stop_channel_closed_at_most_once_witness :
  match main_exec "" 17 [] [AMain; AInterrupt; AMain; ABridge 0; ABridge 0] process_start with
  | Some s => m_stop s = true → (1 ≤ m_interrupts s)%nat
  | None => False
  end.
Proof.
  assert (match main_exec "" 17 [] [AMain; AInterrupt; AMain; ABridge 0; ABridge 0]
                  process_start with
          | Some _ => true
          | None => false
          end = true) as Hrun by (vm_compute; reflexivity).
  destruct (main_exec _ _ _ _ _) as [s|] eqn:E; [|discriminate Hrun].
  exact (proj2 (stop_channel_closed_at_most_once "" 17 [] s (ex_intro _ _ E))).
Defined.

Lemma exit_status_of_a_load_run_witness :
  match main_exec "" 17 []
          [AMain; AMain; AMain; AMain; ATask 0; ATask 0; AFacadeRet 0 (Some "boom");
           ATask 0; AMain] process_start with
  | Some s => exit_status s = Some 1
  | None => False
  end.
Proof.
  assert (match main_exec "" 17 []
                  [AMain; AMain; AMain; AMain; ATask 0; ATask 0;
                   AFacadeRet 0 (Some "boom"); ATask 0; AMain] process_start with
          | Some s =>
              match m_pc s with
              | MLoad _ w => returned w = true ∧
                             rw_tasks w !! 0%nat = Some (TDone (Some "boom"))
              | _ => False
              end
          | None => False
          end) as Hrun by (vm_compute; split; reflexivity).
  destruct (main_exec _ _ _ _ _) as [s|] eqn:E; [|destruct Hrun].
  destruct (m_pc s) as [p|input p|input|input w|r'|v|c] eqn:Hp;
    [destruct Hrun..| | | |]; [|destruct Hrun..].
  destruct Hrun as [Hret Ht].
  destruct (exit_status_of_a_load_run "" 17 [] s input w (ex_intro _ _ E) Hp)
    as (_ & Hone & _).
  apply (proj2 Hone). split; [exact Hret|]. exists 0%nat, "boom". exact Ht.
Defined.
